(** * Annatar: the stream aggregation and ranking pipeline

    A shallow embedding of [annatar/api.py] ([_search], [search]) and of
    the OffCloud provider in [annatar/debrid/offcloud_api.py].

    Conventions of the embedding.
    - Python [int] is [Z]; [str] is [string] (the byte string of the
      text); [list] is [list]; [Optional[T]] is [option T].
    - An awaited call either returns a value or raises: [result].  The
      type [exc] is what a raise carries: instances of Python's
      [Exception], which [except Exception] in [search] catches, and
      [asyncio.CancelledError], which it does not catch.
    - The asynchronous generator consumed by [async for] is the finite
      sequence of links it yields followed by the way it ends; a point
      of the loop is reached after finitely many pulls.
    - [defaultdict(list)] keeps its keys in insertion order, and that
      order decides the order in which [chain] walks its values: it is an
      association list.
    - Collaborators whose code lives outside these two files
      ([Torrent.parse_title], [human.rank_quality], [human.bytes],
      [db], [get_media_info], [jackett]) are fields of an environment
      record.
    - Of [prometheus_client] the model keeps what decides how [search]
      ends: [observe] validates the exemplar it is handed and raises
      [ValueError] when its label names and values hold more than 128
      characters together. *)

From Stdlib Require Import String Ascii.
From Stdlib Require Import ZArith List Bool Lia Permutation DecimalString.
From Stdlib Require DecimalZ.
Import ListNotations.
Open Scope string_scope.
Open Scope list_scope.
Open Scope Z_scope.

(** ** Values *)

(** [annatar.debrid.models.StreamLink] *)
Record StreamLink := mkStreamLink {
  url : string;
  name : string;
  size : Z
}.

(** Modelled from the spec: [annatar.torrent.Torrent], the parsed title;
    of its fields the pipeline reads [resolution], [audio] and
    [audio_channels]. *)
Record Torrent := mkTorrent {
  resolution : string;
  audio : string;
  audio_channels : string
}.

(** What a raise carries.  [TypeError], [ValueError] and
    [OtherException] are instances of [Exception].  [CancelledError] is
    [asyncio.CancelledError], raised inside a coroutine whose task is
    cancelled while it awaits: it derives from [BaseException] only, as
    [KeyboardInterrupt] and [SystemExit] do, and stands for them too. *)
Inductive exc :=
| TypeError (msg : string)
| ValueError (msg : string)
| OtherException (msg : string)
| CancelledError.

(** [isinstance(e, Exception)] *)
Definition is_Exception (e : exc) : bool :=
  match e with
  | CancelledError => false
  | _ => true
  end.

Inductive result (A : Type) :=
| Ok (a : A)
| Raise (e : exc).
Arguments Ok {A} a.
Arguments Raise {A} e.

(** What an asynchronous generator does when it is iterated to its end:
    the links it yields, then [StopAsyncIteration] ([None]) or a fault. *)
Record LinkStream := mkLinkStream {
  yielded : list StreamLink;
  ending : option exc
}.

(** ** [defaultdict(list)] *)

Module DefaultDict.

Definition t := list (string * list StreamLink).

Fixpoint lookup (k : string) (d : t) : option (list StreamLink) :=
  match d with
  | [] => None
  | (k', v) :: rest => if String.eqb k k' then Some v else lookup k rest
  end.

(** [d[k]]: a missing key is inserted with [list()] first. *)
Definition touch (k : string) (d : t) : t :=
  match lookup k d with
  | Some _ => d
  | None => d ++ [(k, [])]
  end.

Definition get (k : string) (d : t) : list StreamLink :=
  match lookup k d with
  | Some v => v
  | None => []
  end.

(** [d[k].append(x)] for a key that is present. *)
Fixpoint append (k : string) (x : StreamLink) (d : t) : t :=
  match d with
  | [] => []
  | (k', v) :: rest =>
      if String.eqb k k' then (k', v ++ [x]) :: rest
      else (k', v) :: append k x rest
  end.

(** [chain] over the values of [d], in key insertion order. *)
Definition chain_values (d : t) : list StreamLink :=
  concat (map snd d).

Definition keys (d : t) : list string := map fst d.

End DefaultDict.

(** ** The aggregation loop of [_search] (api.py, lines 66-87) *)

(** [math.ceil(max_results / 2)].  The quotient is exact in binary64
    for every [max_results] of magnitude up to 2^53. *)
Definition ceil_half (max_results : Z) : Z := (max_results + 1) / 2.

(** The local variables of the loop, and the [asyncio.Event] created at
    line 69 ([stop] is its flag). *)
Record AggState := mkAggState {
  resolution_links : DefaultDict.t;
  total_links : Z;
  total_processed : Z;
  stop : bool
}.

Definition agg_init : AggState :=
  {| resolution_links := [];
     total_links := 0;
     total_processed := 0;
     stop := false |}.

Inductive Control := Next | Break.

Inductive LoopExit :=
| Exhausted
| Broke
| Faulted (e : exc).

Section Aggregation.

Variable parse_title : string -> Torrent.
Variable max_results : Z.

Definition resolution_of (link : StreamLink) : string :=
  resolution (parse_title (name link)).

(** One iteration of the body, lines 76-87. *)
Definition loop_body (st : AggState) (link : StreamLink)
  : AggState * Control :=
  let processed := total_processed st + 1 in
  let res := resolution_of link in
  let d := DefaultDict.touch res (resolution_links st) in
  if Z.of_nat (length (DefaultDict.get res d)) >=? ceil_half max_results
  then
    ({| resolution_links := d;
        total_links := total_links st;
        total_processed := processed;
        stop := stop st |}, Next)
  else
    let st' := {| resolution_links := DefaultDict.append res link d;
                  total_links := total_links st + 1;
                  total_processed := processed;
                  stop := stop st |} in
    if total_links st' >=? max_results then (st', Break) else (st', Next).

(** [async for link in ...: body] over what the generator yields. *)
Fixpoint async_for (st : AggState) (links : list StreamLink)
    (fin : option exc) : AggState * LoopExit :=
  match links with
  | [] => (st, match fin with None => Exhausted | Some e => Faulted e end)
  | link :: rest =>
      match loop_body st link with
      | (st', Break) => (st', Broke)
      | (st', Next) => async_for st' rest fin
      end
  end.

(** The states inside one iteration, between its statements: after
    line 76; after the subscript of line 79, which creates a missing
    bucket; and, for a link that is kept, after the [append] of line 83,
    before the counter is incremented. *)
Definition body_inner (st : AggState) (link : StreamLink)
  : list AggState :=
  let processed := total_processed st + 1 in
  let res := resolution_of link in
  let d := DefaultDict.touch res (resolution_links st) in
  {| resolution_links := resolution_links st;
     total_links := total_links st;
     total_processed := processed;
     stop := stop st |} ::
  if Z.of_nat (length (DefaultDict.get res d)) >=? ceil_half max_results
  then []
  else
    [ {| resolution_links := d;
         total_links := total_links st;
         total_processed := processed;
         stop := stop st |};
      {| resolution_links := DefaultDict.append res link d;
         total_links := total_links st;
         total_processed := processed;
         stop := stop st |} ].

(** The state at every point of the loop: before the first iteration,
    between the statements of each iteration that runs, and after it. *)
Fixpoint loop_points (st : AggState) (links : list StreamLink)
  : list AggState :=
  st ::
  match links with
  | [] => []
  | link :: rest =>
      body_inner st link ++
      match loop_body st link with
      | (st', Break) => [st']
      | (st', Next) => loop_points st' rest
      end
  end.

Definition aggregate (s : LinkStream) : AggState * LoopExit :=
  async_for agg_init (yielded s) (ending s).

Definition accepted (st : AggState) : list StreamLink :=
  DefaultDict.chain_values (resolution_links st).

End Aggregation.

(** ** Ranking (api.py, lines 90-96) *)

Section Ranking.

Variable rank_quality : string -> Z.

(** [key=lambda x: human.rank_quality(x.name)] *)
Definition rank_key (x : StreamLink) : Z := rank_quality (name x).

(** [sorted(..., key=..., reverse=True)]: descending in the key, and
    elements whose keys are equal keep the order they came in.  These
    two facts fix the output, so a stable insertion sort computes
    what the library sort computes. *)
Fixpoint insert_desc (x : StreamLink) (l : list StreamLink)
  : list StreamLink :=
  match l with
  | [] => [x]
  | y :: rest =>
      if rank_key x <? rank_key y then y :: insert_desc x rest
      else x :: y :: rest
  end.

Definition sorted_reverse (l : list StreamLink) : list StreamLink :=
  fold_right insert_desc [] l.

Definition rank (st : AggState) : list StreamLink :=
  sorted_reverse (accepted st).

End Ranking.

(** ** Strings *)

Module Str.

Definition newline : string := String (ascii_of_nat 10) EmptyString.

(** [sep.join(parts)] *)
Definition join (sep : string) (parts : list string) : string :=
  String.concat sep parts.

(** [str.isspace] on the ASCII range. *)
Definition is_space (c : ascii) : bool :=
  let n := nat_of_ascii c in
  ((9 <=? n) && (n <=? 13) || (28 <=? n) && (n <=? 32))%nat.

Fixpoint lstrip (s : string) : string :=
  match s with
  | EmptyString => EmptyString
  | String c rest => if is_space c then lstrip rest else s
  end.

Fixpoint rstrip (s : string) : string :=
  match s with
  | EmptyString => EmptyString
  | String c rest =>
      match rstrip rest with
      | EmptyString => if is_space c then EmptyString
                       else String c EmptyString
      | r => String c r
      end
  end.

(** [s.strip()] *)
Definition strip (s : string) : string := rstrip (lstrip s).

Definition is_digit (c : ascii) : bool :=
  let n := nat_of_ascii c in ((48 <=? n) && (n <=? 57))%nat.

(** [re.split(r"\D", s)[0]]: what precedes the first non-digit. *)
Fixpoint digits_prefix (s : string) : string :=
  match s with
  | EmptyString => EmptyString
  | String c rest =>
      if is_digit c then String c (digits_prefix rest) else EmptyString
  end.

Fixpoint digits_value (acc : Z) (s : string) : Z :=
  match s with
  | EmptyString => acc
  | String c rest =>
      digits_value (10 * acc + (Z.of_nat (nat_of_ascii c) - 48)) rest
  end.

(** [int(s)] for a string of digits; the empty string is refused. *)
Definition int_of_digits (s : string) : result Z :=
  match s with
  | EmptyString =>
      Raise (ValueError "invalid literal for int() with base 10")
  | _ => Ok (digits_value 0 s)
  end.

(** [str(n)] *)
Definition of_Z (n : Z) : string :=
  DecimalString.NilZero.string_of_int (Z.to_int n).

(** [len(s)]: the number of characters of the text, which is the
    number of bytes of its UTF-8 form that do not continue a
    character. *)
Definition is_continuation (c : ascii) : bool :=
  let n := nat_of_ascii c in ((128 <=? n) && (n <? 192))%nat.

Fixpoint len (s : string) : nat :=
  match s with
  | EmptyString => 0%nat
  | String c rest =>
      if is_continuation c then len rest else S (len rest)
  end.

(** [s.split("/")[-1]]: what follows the last slash. *)
Fixpoint last_segment (s : string) : string :=
  match s with
  | EmptyString => EmptyString
  | String c rest =>
      if existsb (Ascii.eqb "/"%char) (list_ascii_of_string rest)
      then last_segment rest
      else if Ascii.eqb c "/"%char then rest else s
  end.

End Str.

(** ** Formatting (api.py, lines 98-123) *)

(** Modelled from the spec: [annatar.stremio.Stream], the display
    record. *)
Module Stream.
Record t := mk {
  url : string;
  title : string;
  name : string
}.
End Stream.

(** Modelled from the spec: [annatar.stremio.StreamResponse]; [error]
    and [cached] default to [None] and [False]. *)
Record StreamResponse := mkStreamResponse {
  streams : list Stream.t;
  error : option string;
  cached : bool
}.

Section Formatting.

Variable parse_title : string -> Torrent.
(** [human.bytes(float(n))] for an integer [n]. *)
Variable human_bytes : Z -> string.
(** [debrid.short_name()] *)
Variable short_name : string.

Definition size_line (link : StreamLink) : string :=
  ("💾" ++ human_bytes (size link))%string.

(** The [Stream(...)] built for one link, lines 100-120. *)
Definition format_link (link : StreamLink) : Stream.t :=
  let meta := parse_title (name link) in
  {| Stream.url := url link;
     Stream.title :=
       Str.join Str.newline
         [ name link;
           ("📺" ++ resolution meta)%string;
           ("🔊" ++ audio meta)%string;
           size_line link ];
     Stream.name :=
       Str.strip
         (Str.join " "
            [ ("[" ++ short_name ++ "+]")%string;
              "Annatar";
              resolution meta;
              audio_channels meta ]) |}.

(** [streams = []; for link in sorted_links: streams.append(...)] *)
Definition format_links (sorted_links : list StreamLink)
  : list Stream.t :=
  fold_left (fun acc link => acc ++ [format_link link]) sorted_links [].

End Formatting.

(** ** Calls with keyword arguments *)

(** The values that travel as arguments of [get_stream_links]. *)
Inductive pyval :=
| VInt (n : Z)
| VInts (l : list Z)
| VStrs (l : list string)
| VEvent (is_set : bool).

Record Param := mkParam {
  p_name : string;
  p_default : option pyval
}.

Definition Kwargs := list (string * pyval).

Fixpoint kw_lookup (k : string) (kwargs : Kwargs) : option pyval :=
  match kwargs with
  | [] => None
  | (k', v) :: rest => if String.eqb k k' then Some v else kw_lookup k rest
  end.

Fixpoint bind_params (params : list Param) (kwargs : Kwargs)
  : result Kwargs :=
  match params with
  | [] => Ok []
  | p :: rest =>
      match kw_lookup (p_name p) kwargs, p_default p with
      | Some v, _ | None, Some v =>
          match bind_params rest kwargs with
          | Ok bound => Ok ((p_name p, v) :: bound)
          | Raise e => Raise e
          end
      | None, None =>
          Raise (TypeError "missing a required argument")
      end
  end.

(** Binding the keywords of a call to the parameters of a [def]: a
    keyword that names no parameter is a [TypeError], and so is a
    parameter left without a value. *)
Definition bind_keywords (params : list Param) (kwargs : Kwargs)
  : result Kwargs :=
  match
    find (fun kw => negb (existsb (String.eqb (fst kw)) (map p_name params)))
         kwargs
  with
  | Some _ => Raise (TypeError "got an unexpected keyword argument")
  | None => bind_params params kwargs
  end.

(** ** Debrid providers *)

Module DebridService.

(** The capability interface of [annatar.debrid.providers]:
    [get_stream_links] is a [def] with parameters [params] (after
    [self]) whose body, once the arguments are bound, is an
    asynchronous generator. *)
Record t := mk {
  id : string;
  short_name : string;
  name : string;
  shared_cache : bool;
  params : list Param;
  body : Kwargs -> LinkStream
}.

Definition get_stream_links (d : t) (kwargs : Kwargs)
  : result LinkStream :=
  match bind_keywords (params d) kwargs with
  | Ok bound => Ok (body d bound)
  | Raise e => Raise e
  end.

End DebridService.

(** ** Collaborators of [_search] *)

(** Modelled from the spec: [annatar.meta.cinemeta.MediaInfo], of which
    [_search] reads [name] and [releaseInfo]. *)
Module MediaInfo.
Record t := mk {
  name : string;
  releaseInfo : option string
}.
End MediaInfo.

(** Modelled from the spec: [annatar.jackett_models.SearchQuery]. *)
Module SearchQuery.
Record t := mk {
  imdb_id : string;
  name : string;
  type : string;
  year : Z;
  season : option string;
  episode : option string
}.
End SearchQuery.

(** An indexer of [annatar.jackett_models], as an opaque handle. *)
Definition Indexer := string.

Record Env := mkEnv {
  Torrent_parse_title : string -> Torrent;
  human_rank_quality : string -> Z;
  human_bytes : Z -> string;
  db_unique_add : string -> string -> result bool;
  get_media_info : string -> string -> result (option MediaInfo.t);
  Indexer_find_by_id : string -> option Indexer;
  Indexer_supports : Indexer -> string -> bool;
  jackett_search_indexers :
    SearchQuery.t -> list Indexer -> result (list string)
}.

(** ** Effects *)

(** The labels and the exemplar of one call of
    [REQUEST_DURATION.labels(...).observe(secs, exemplar=...)].  The
    number of seconds is wall-clock time and is not part of the
    model. *)
Record Observation := mkObservation {
  o_type : string;
  o_debrid_service : string;
  o_cached : bool;
  o_error : bool;
  o_imdb : string;
  o_season_episode : string
}.

(** What a request does to the world outside, in the order it does it.
    The [structlog] lines change no value and are left out. *)
Inductive Event :=
| EvUniqueAdd (set_name key : string)
| EvUniqueSearchesInc
| EvGetMediaInfo (id type : string)
| EvSearchIndexers (q : SearchQuery.t) (indexers : list Indexer)
| EvGetStreamLinks (kwargs : Kwargs)
| EvObserve (o : Observation).

(** A computation: it extends the event history and returns or raises. *)
Definition M (A : Type) : Type := list Event -> result A * list Event.

Definition ret {A} (a : A) : M A := fun h => (Ok a, h).

Definition raise {A} (e : exc) : M A := fun h => (Raise e, h).

Definition bind {A B} (m : M A) (f : A -> M B) : M B :=
  fun h =>
    match m h with
    | (Ok a, h') => f a h'
    | (Raise e, h') => (Raise e, h')
    end.

Definition emit (ev : Event) : M unit := fun h => (Ok tt, h ++ [ev]).

(** An awaited call to a collaborator: the event, then its outcome. *)
Definition call {A} (ev : Event) (outcome : result A) : M A :=
  fun h => (outcome, h ++ [ev]).

Definition lift {A} (r : result A) : M A := fun h => (r, h).

Notation "x <- m ;; k" := (bind m (fun x => k))
  (at level 61, m at next level, right associativity).
Notation "m ;;; k" := (bind m (fun _ => k))
  (at level 61, right associativity).

(** [try: return body / except Exception as e: return handler(e) /
    finally: final(res)], where [res] is the local that holds the value
    about to be returned, or [None] when there is none.  A raise that
    is not an [Exception] passes the handler by and goes on to the
    caller, with [res] still [None].  What [finally] raises replaces
    the value or the fault on its way out. *)
Definition try_except_finally {A} (body : M A) (handler : exc -> M A)
    (final : option A -> M unit) : M A :=
  fun h =>
    let (r, h1) := body h in
    let (r', h2) :=
      match r with
      | Ok a => (Ok a, h1)
      | Raise e => if is_Exception e then handler e h1 else (Raise e, h1)
      end in
    let res := match r' with Ok a => Some a | Raise _ => None end in
    match final res h2 with
    | (Ok _, h3) => (r', h3)
    | (Raise e, h3) => (Raise e, h3)
    end.

(** ** [_search] and [search] (api.py) *)

Definition media_info_error : StreamResponse :=
  {| streams := []; error := Some "Error getting media info";
     cached := false |}.

Definition search_error : StreamResponse :=
  {| streams := []; error := Some "Error searching"; cached := false |}.

(** The text of a list of integers inside an f-string. *)
Definition repr_ints (l : list Z) : string :=
  ("[" ++ Str.join ", " (map Str.of_Z l) ++ "]")%string.

(** [int(re.split(r"\D", (releaseInfo or ""))[0])] *)
Definition release_year (info : MediaInfo.t) : result Z :=
  let text := match MediaInfo.releaseInfo info with
              | Some s => s
              | None => ""
              end in
  Str.int_of_digits (Str.digits_prefix text).

(** Lines 49-58. *)
Definition build_query (type imdb_id : string) (info : MediaInfo.t)
    (year : Z) (season_episode : list Z) : SearchQuery.t :=
  let q := {| SearchQuery.imdb_id := imdb_id;
              SearchQuery.name := MediaInfo.name info;
              SearchQuery.type := type;
              SearchQuery.year := year;
              SearchQuery.season := None;
              SearchQuery.episode := None |} in
  match season_episode with
  | [s; e] =>
      if String.eqb type "series"
      then {| SearchQuery.imdb_id := imdb_id;
              SearchQuery.name := MediaInfo.name info;
              SearchQuery.type := type;
              SearchQuery.year := year;
              SearchQuery.season := Some (Str.of_Z s);
              SearchQuery.episode := Some (Str.of_Z e) |}
      else q
  | _ => q
  end.

(** Lines 60 and 63: the indexers that are known and support [type]. *)
Definition usable_indexers (env : Env) (type : string)
    (indexers : list string) : list Indexer :=
  flat_map
    (fun i =>
       match Indexer_find_by_id env i with
       | Some ix => if Indexer_supports env ix type then [ix] else []
       | None => []
       end)
    indexers.

(** The keywords of the call at lines 70-75.  [stop] is the event
    created at line 69; nothing in [_search] sets it, so what a
    resolver reads from it is its initial value throughout. *)
Definition stream_links_kwargs (torrents : list string)
    (season_episode : list Z) (max_results : Z) : Kwargs :=
  [ ("torrents", VStrs torrents);
    ("season_episode", VInts season_episode);
    ("stop", VEvent (stop agg_init));
    ("max_results", VInt max_results) ].

(** Lines 89-123: ranking and formatting of what the loop accepted. *)
Definition respond (env : Env) (debrid : DebridService.t)
    (st : AggState) : StreamResponse :=
  {| streams :=
       format_links (Torrent_parse_title env) (human_bytes env)
         (DebridService.short_name debrid)
         (rank (human_rank_quality env) st);
     error := None;
     cached := false |}.

Definition _search (env : Env) (type : string) (max_results : Z)
    (debrid : DebridService.t) (imdb_id : string)
    (season_episode : list Z) (indexers : list string)
  : M StreamResponse :=
  let key := (imdb_id ++ ":" ++ repr_ints season_episode)%string in
  fresh <- call (EvUniqueAdd "stream_request" key)
                (db_unique_add env "stream_request" key) ;;
  (if fresh : bool then emit EvUniqueSearchesInc else ret tt) ;;;
  media_info <- call (EvGetMediaInfo imdb_id type)
                     (get_media_info env imdb_id type) ;;
  match media_info with
  | None => ret media_info_error
  | Some info =>
      year <- lift (release_year info) ;;
      let q := build_query type imdb_id info year season_episode in
      let ixs := usable_indexers env type indexers in
      torrents <- call (EvSearchIndexers q ixs)
                       (jackett_search_indexers env q ixs) ;;
      let kwargs :=
        stream_links_kwargs torrents season_episode max_results in
      links <- call (EvGetStreamLinks kwargs)
                    (DebridService.get_stream_links debrid kwargs) ;;
      match aggregate (Torrent_parse_title env) max_results links with
      | (_, Faulted e) => raise e
      | (st, _) => ret (respond env debrid st)
      end
  end.

(** [True if res and res.error else False] *)
Definition error_label (res : option StreamResponse) : bool :=
  match res with
  | Some r =>
      match error r with
      | Some (String _ _) => true
      | _ => false
      end
  | None => false
  end.

(** [res.cached if res else False] *)
Definition cached_label (res : option StreamResponse) : bool :=
  match res with
  | Some r => cached r
  | None => false
  end.

(** The exemplar of lines 193-196, as the items of the dict. *)
Definition exemplar (imdb_id : string) (season_episode : list Z)
  : list (string * string) :=
  [ ("imdb", imdb_id);
    ("season_episode", Str.join "," (map Str.of_Z season_episode)) ].

(** [prometheus_client] validates the exemplar it is handed: the names
    and values of its labels may hold 128 characters together, and
    [observe] raises [ValueError] for an exemplar that holds more. *)
Definition exemplar_runes (items : list (string * string)) : nat :=
  fold_left
    (fun runes kv => (runes + Str.len (fst kv) + Str.len (snd kv))%nat)
    items 0%nat.

Definition exemplar_fits (imdb_id : string) (season_episode : list Z)
  : bool :=
  (exemplar_runes (exemplar imdb_id season_episode) <=? 128)%nat.

(** What [observe] raises then; the text of the message is abridged. *)
Definition exemplar_error : exc :=
  ValueError "Exemplar labels exceed the limit of 128 UTF-8 characters".

(** The [finally] block, lines 185-197: the one call of [observe], which
    returns or raises as the exemplar allows.  Nothing guards it. *)
Definition observe_request (type : string) (debrid : DebridService.t)
    (imdb_id : string) (season_episode : list Z)
    (res : option StreamResponse) : M unit :=
  call (EvObserve
          {| o_type := type;
             o_debrid_service := DebridService.id debrid;
             o_cached := cached_label res;
             o_error := error_label res;
             o_imdb := imdb_id;
             o_season_episode :=
               Str.join "," (map Str.of_Z season_episode) |})
       (if exemplar_fits imdb_id season_episode then Ok tt
        else Raise exemplar_error).

(** The [try] statement of [search], lines 168-197, around whatever the
    awaited call of its [try] block does. *)
Definition search_guard (attempt : M StreamResponse) (type : string)
    (debrid : DebridService.t) (imdb_id : string)
    (season_episode : list Z) : M StreamResponse :=
  try_except_finally attempt
    (fun _ => ret search_error)
    (observe_request type debrid imdb_id season_episode).

Definition search (env : Env) (type : string) (max_results : Z)
    (debrid : DebridService.t) (imdb_id : string)
    (season_episode : list Z) (indexers : list string)
  : M StreamResponse :=
  search_guard
    (_search env type max_results debrid imdb_id season_episode indexers)
    type debrid imdb_id season_episode.

(** The calls of [observe] in a history. *)
Definition observations (h : list Event) : list Observation :=
  flat_map (fun ev => match ev with EvObserve o => [o] | _ => [] end) h.

(** A call that was not cancelled: it returned, or what it raised is
    an [Exception]. *)
Definition uncancelled {A} (r : result A) : Prop :=
  match r with
  | Ok _ => True
  | Raise e => is_Exception e = true
  end.

(** The stages that follow metadata lookup leave these events. *)
Definition later_stage (ev : Event) : bool :=
  match ev with
  | EvSearchIndexers _ _ | EvGetStreamLinks _ => true
  | _ => false
  end.

(** ** The OffCloud provider (offcloud_api.py) *)

Module OffCloud.

(** Modelled from the spec: the response records of
    [annatar.debrid.offcloud_models], with the fields the provider
    reads. *)
Record AddMagnetResponse := mkAddMagnetResponse {
  request_id : string;
  status : string
}.

Record TorrentInfo := mkTorrentInfo {
  is_directory : bool;
  server : string;
  file_name : string
}.

Record TorrentMeta := mkTorrentMeta {
  season : list Z;
  episode : list Z
}.

(** The HTTP-facing methods ([add_magent_link], [get_torrent_info],
    [get_torrent_instant_availability], [explore_folder_links]) are
    wrappers around a request and a validation; each is taken by its
    outcome.  [get_torrent_info] yields the [status] field of its
    response, [get_torrent_instant_availability] the [cached_items]. *)
Record Api := mkApi {
  make_magnet_link : string -> string;
  add_magent_link : string -> result (option AddMagnetResponse);
  get_torrent_info : string -> result (option TorrentInfo);
  get_torrent_instant_availability :
    list string -> result (option (list string));
  explore_folder_links : string -> result (option (list string));
  is_video : string -> bool;
  TorrentMeta_parse_title : string -> TorrentMeta
}.

Section Provider.

Variable api : Api.

Definition truthy (n : Z) : bool := negb (n =? 0).

Definition mem (n : Z) (l : list Z) : bool := existsb (Z.eqb n) l.

(** The [for link in response] loop of [create_download_link]. *)
Fixpoint pick_link (links : list string) (season episode : Z)
  : option string :=
  match links with
  | [] => None
  | link :: rest =>
      if negb (is_video api link) then pick_link rest season episode
      else if negb (truthy season) && negb (truthy episode)
      then Some link
      else if truthy season && truthy episode
      then
        let meta := TorrentMeta_parse_title api (Str.last_segment link) in
        if mem season (OffCloud.season meta)
           && mem episode (OffCloud.episode meta)
        then Some link
        else pick_link rest season episode
      else pick_link rest season episode
  end.

Definition create_download_link (request_id : string)
    (torrent_info : TorrentInfo) (season episode : Z)
  : result (option string) :=
  if negb (is_directory torrent_info)
  then Ok (Some ("https://" ++ server torrent_info
                 ++ ".offcloud.com/cloud/download/" ++ request_id
                 ++ "/" ++ file_name torrent_info)%string)
  else
    match explore_folder_links api request_id with
    | Raise e => Raise e
    | Ok None | Ok (Some []) => Ok None
    | Ok (Some response) => Ok (pick_link response season episode)
    end.

Definition get_stream_link (info_hash : string) (season episode : Z)
  : result (option StreamLink) :=
  match add_magent_link api (make_magnet_link api info_hash) with
  | Raise e => Raise e
  | Ok None => Ok None
  | Ok (Some magnet_resp) =>
      if negb (String.eqb (status magnet_resp) "downloaded")
      then Ok None
      else
        match get_torrent_info api (request_id magnet_resp) with
        | Raise e => Raise e
        | Ok None => Ok None
        | Ok (Some torrent_info) =>
            match create_download_link (request_id magnet_resp)
                    torrent_info season episode with
            | Raise e => Raise e
            | Ok None | Ok (Some EmptyString) => Ok None
            | Ok (Some download_link) =>
                Ok (Some {| url := download_link;
                            name := file_name torrent_info;
                            size := 0 |})
            end
        end
  end.

(** The [for torrent in available_torrents.cached_items] loop of
    [get_stream_links]; [stop] is what [stop.is_set()] answers. *)
Fixpoint stream_loop (items : list string) (i : Z) (stop : bool)
    (max_results season episode : Z) : LinkStream :=
  match items with
  | [] => {| yielded := []; ending := None |}
  | torrent :: rest =>
      match torrent with
      | EmptyString => stream_loop rest i stop max_results season episode
      | _ =>
          match get_stream_link torrent season episode with
          | Raise e => {| yielded := []; ending := Some e |}
          | Ok (Some link) =>
              if (i + 1 >=? max_results) || stop
              then {| yielded := [link]; ending := None |}
              else
                let s := stream_loop rest (i + 1) stop max_results
                           season episode in
                {| yielded := link :: yielded s; ending := ending s |}
          | Ok None =>
              if stop then {| yielded := []; ending := None |}
              else stream_loop rest i stop max_results season episode
          end
      end
  end.

Definition get_stream_links (torrents : list string) (stop : bool)
    (max_results season episode : Z) : LinkStream :=
  match get_torrent_instant_availability api torrents with
  | Raise e => {| yielded := []; ending := Some e |}
  | Ok None | Ok (Some []) => {| yielded := []; ending := None |}
  | Ok (Some cached_items) =>
      stream_loop cached_items 0 stop max_results season episode
  end.

(** [def get_stream_links(self, torrents, stop, max_results,
    season=0, episode=0)] *)
Definition get_stream_links_params : list Param :=
  [ {| p_name := "torrents"; p_default := None |};
    {| p_name := "stop"; p_default := None |};
    {| p_name := "max_results"; p_default := None |};
    {| p_name := "season"; p_default := Some (VInt 0) |};
    {| p_name := "episode"; p_default := Some (VInt 0) |} ].

Definition arg_strs (k : string) (a : Kwargs) : list string :=
  match kw_lookup k a with Some (VStrs l) => l | _ => [] end.

Definition arg_int (k : string) (a : Kwargs) : Z :=
  match kw_lookup k a with Some (VInt n) => n | _ => 0 end.

Definition arg_event (k : string) (a : Kwargs) : bool :=
  match kw_lookup k a with Some (VEvent b) => b | _ => false end.

Definition get_stream_links_body (a : Kwargs) : LinkStream :=
  get_stream_links (arg_strs "torrents" a) (arg_event "stop" a)
    (arg_int "max_results" a) (arg_int "season" a)
    (arg_int "episode" a).

Definition service : DebridService.t :=
  {| DebridService.id := "offcloud";
     DebridService.short_name := "offcloud";
     DebridService.name := "OffCloud";
     DebridService.shared_cache := false;
     DebridService.params := get_stream_links_params;
     DebridService.body := get_stream_links_body |}.

End Provider.

End OffCloud.

(** ** Vocabulary of the statements *)

Section LoopVocabulary.

Variable parse_title : string -> Torrent.
Variable max_results : Z.

(** The per-bucket cap, as a length. *)
Definition bucket_cap : nat := Z.to_nat (ceil_half max_results).

Definition has_resolution (k : string) (x : StreamLink) : bool :=
  String.eqb k (resolution_of parse_title x).

(** The bucket of label [k]. *)
Definition bucket (k : string) (st : AggState) : list StreamLink :=
  DefaultDict.get k (resolution_links st).

(** What ties a state of the loop to the links [seen] pulled so far:
    every bucket holds, in arrival order, the first [bucket_cap]
    links of its label; [total_links] counts the links held;
    [total_processed] counts the links pulled; the event is unset. *)
Record LoopInv (st : AggState) (seen : list StreamLink) : Prop := {
  inv_keys : NoDup (DefaultDict.keys (resolution_links st));
  inv_buckets :
    forall k, bucket k st = firstn bucket_cap (filter (has_resolution k) seen);
  inv_total : total_links st = Z.of_nat (length (accepted st));
  inv_processed : total_processed st = Z.of_nat (length seen);
  inv_stop : stop st = false
}.

(** The caps: the links held, and the counter of them, within the
    global cap; every bucket within the per-bucket cap. *)
Definition Within (st : AggState) : Prop :=
  Z.of_nat (length (accepted st)) <= max_results /\
  total_links st <= max_results /\
  forall k, Z.of_nat (length (bucket k st)) <= ceil_half max_results.

(** A state from which the loop pulls another link. *)
Definition Open (st : AggState) : Prop :=
  total_links st = 0 \/ total_links st < max_results.

End LoopVocabulary.

(** Arrival order, for the statement about ranking. *)

Definition link_eqb (x y : StreamLink) : bool :=
  String.eqb (url x) (url y) && String.eqb (name x) (name y)
  && (size x =? size y).

(** The first position of [x] in [l]. *)
Fixpoint position (x : StreamLink) (l : list StreamLink) : option nat :=
  match l with
  | [] => None
  | y :: rest =>
      if link_eqb x y then Some 0%nat
      else option_map S (position x rest)
  end.

Definition before (x y : StreamLink) (l : list StreamLink) : Prop :=
  exists i j, position x l = Some i /\ position y l = Some j /\ (i < j)%nat.

(** Ranking keeps arrival order among equal scores: of two accepted
    links with the same score, the one the resolver emitted first comes
    first in the ranked sequence. *)
Definition ranking_keeps_arrival_order (parse_title : string -> Torrent)
    (rank_quality : string -> Z) (max_results : Z) (s : LinkStream) : Prop :=
  let st := fst (aggregate parse_title max_results s) in
  forall x y,
    In x (accepted st) -> In y (accepted st) ->
    rank_key rank_quality x = rank_key rank_quality y ->
    before x y (yielded s) ->
    before x y (rank rank_quality st).

(** Descending in the score. *)
Fixpoint descending (rank_quality : string -> Z) (l : list StreamLink)
  : Prop :=
  match l with
  | [] => True
  | x :: rest =>
      Forall (fun y => rank_key rank_quality y <= rank_key rank_quality x)
             rest
      /\ descending rank_quality rest
  end.

Definition scored (rank_quality : string -> Z) (score : Z)
    (x : StreamLink) : bool :=
  rank_key rank_quality x =? score.

(** ** Sample collaborators and requests *)

Module Sample.

Definition mentions (marker text : string) : bool :=
  match String.index 0 marker text with
  | Some _ => true
  | None => false
  end.

(** A parser that reads the resolution marker of a release name. *)
Definition parse (n : string) : Torrent :=
  {| resolution :=
       if mentions "1080p" n then "1080p"
       else if mentions "720p" n then "720p"
       else if mentions "480p" n then "480p"
       else "unknown";
     audio := if mentions "DTS" n then "DTS" else "";
     audio_channels := if mentions "5.1" n then "5.1" else "" |}.

(** A scorer with one tier per high-definition resolution. *)
Definition score (n : string) : Z :=
  if mentions "1080p" n then 3
  else if mentions "720p" n then 2
  else 0.

Definition show_bytes (n : Z) : string :=
  (Str.of_Z n ++ " B")%string.

Definition link (u n : string) : StreamLink :=
  {| url := u; name := n; size := 1024 |}.

Definition a1080 := link "http://h/1" "Movie.2020.1080p.x264-GRP".
Definition b1080 := link "http://h/2" "Movie.2020.1080p.x265-GRP2".
Definition c1080 := link "http://h/3" "Movie.2020.1080p.WEB-GRP3".
Definition d720 := link "http://h/4" "Movie.2020.720p.x264-GRP".
Definition e720 := link "http://h/5" "Movie.2020.720p.WEB-GRP2".
Definition f480 := link "http://h/6" "Movie.2020.480p.DVDRip-GRP".
Definition g480 := link "http://h/7" "Movie.2020.480p.WEB-GRP2".
Definition hcam := link "http://h/8" "Movie.2020.CAM-GRP".

Definition ends (links : list StreamLink) : LinkStream :=
  {| yielded := links; ending := None |}.

(** A provider whose [get_stream_links] takes the keywords [_search]
    passes, and yields a given stream. *)
Definition provider (s : LinkStream) : DebridService.t :=
  {| DebridService.id := "sample";
     DebridService.short_name := "SMP";
     DebridService.name := "Sample";
     DebridService.shared_cache := false;
     DebridService.params :=
       [ {| p_name := "torrents"; p_default := None |};
         {| p_name := "season_episode"; p_default := None |};
         {| p_name := "stop"; p_default := None |};
         {| p_name := "max_results"; p_default := None |} ];
     DebridService.body := fun _ => s |}.

Definition env (info : option MediaInfo.t) : Env :=
  {| Torrent_parse_title := parse;
     human_rank_quality := score;
     human_bytes := show_bytes;
     db_unique_add := fun _ _ => Ok true;
     get_media_info := fun _ _ => Ok info;
     Indexer_find_by_id := fun i => Some i;
     Indexer_supports := fun _ _ => true;
     jackett_search_indexers := fun _ _ => Ok ["hash1"; "hash2"] |}.

Definition movie : MediaInfo.t :=
  {| MediaInfo.name := "Movie"; MediaInfo.releaseInfo := Some "2020" |}.

(** An identifier of 111 characters: with the names [imdb] and
    [season_episode] the exemplar then holds 129. *)
Definition long_id : string :=
  ("t" ++ String.concat "" (repeat "0123456789" 11))%string.

(** An OffCloud account in which every magnet is downloaded as a
    single file. *)
Definition api : OffCloud.Api :=
  {| OffCloud.make_magnet_link := fun h => ("magnet:?xt=urn:btih:" ++ h)%string;
     OffCloud.add_magent_link := fun _ =>
       Ok (Some {| OffCloud.request_id := "r1";
                   OffCloud.status := "downloaded" |});
     OffCloud.get_torrent_info := fun _ =>
       Ok (Some {| OffCloud.is_directory := false;
                   OffCloud.server := "fr-4";
                   OffCloud.file_name := "Movie.2020.1080p.x264-GRP.mkv" |});
     OffCloud.get_torrent_instant_availability := fun l => Ok (Some l);
     OffCloud.explore_folder_links := fun _ => Ok None;
     OffCloud.is_video := fun _ => true;
     OffCloud.TorrentMeta_parse_title := fun _ =>
       {| OffCloud.season := []; OffCloud.episode := [] |} |}.

End Sample.

(** ** Vocabulary of the further statements *)

(** The links the loop pulled from the stream before it ended. *)
Definition pulled (parse_title : string -> Torrent) (max_results : Z)
    (s : LinkStream) : list StreamLink :=
  let st := fst (aggregate parse_title max_results s) in
  firstn (Z.to_nat (total_processed st)) (yielded s).

(** The labels of a sequence, each once, in order of first occurrence. *)
Definition note_label (known : list string) (k : string) : list string :=
  if existsb (String.eqb k) known then known else known ++ [k].

Definition first_occurrences (labels : list string) : list string :=
  fold_left note_label labels [].

(** Label [k1] comes before label [k2] in a sequence of labels. *)
Definition label_precedes (k1 k2 : string) (labels : list string) : Prop :=
  exists l1 l2 l3, labels = l1 ++ k1 :: l2 ++ k2 :: l3.

(** The events a request adds to an empty history. *)
Definition request_events (env : Env) (type : string) (max_results : Z)
    (debrid : DebridService.t) (imdb_id : string)
    (season_episode : list Z) (indexers : list string) : list Event :=
  snd (_search env type max_results debrid imdb_id season_episode
         indexers []).

Definition is_counter_inc (ev : Event) : bool :=
  match ev with
  | EvUniqueSearchesInc => true
  | _ => false
  end.

Definition all_digits (s : string) : bool :=
  forallb Str.is_digit (list_ascii_of_string s).

(** A character of the ASCII range that is not a decimal digit. *)
Definition plain_non_digit (c : ascii) : Prop :=
  (nat_of_ascii c < 128)%nat /\ Str.is_digit c = false.

(** The test [create_download_link] applies to a link of a folder. *)
Definition wanted (api : OffCloud.Api) (season episode : Z)
    (link : string) : bool :=
  OffCloud.is_video api link &&
  (if negb (OffCloud.truthy season) && negb (OffCloud.truthy episode)
   then true
   else if OffCloud.truthy season && OffCloud.truthy episode
   then
     let meta :=
       OffCloud.TorrentMeta_parse_title api (Str.last_segment link) in
     OffCloud.mem season (OffCloud.season meta)
     && OffCloud.mem episode (OffCloud.episode meta)
   else false).

(** The links of the cached items that resolve, in the order of the
    items, up to the first item whose resolution fails. *)
Fixpoint resolved (api : OffCloud.Api) (season episode : Z)
    (items : list string) : list StreamLink :=
  match items with
  | [] => []
  | EmptyString :: rest => resolved api season episode rest
  | torrent :: rest =>
      match OffCloud.get_stream_link api torrent season episode with
      | Ok (Some link) => link :: resolved api season episode rest
      | Ok None => resolved api season episode rest
      | Raise _ => []
      end
  end.

(** The cached items [get_stream_links] walks through. *)
Definition cached_items (api : OffCloud.Api) (torrents : list string)
  : list string :=
  match OffCloud.get_torrent_instant_availability api torrents with
  | Ok (Some items) => items
  | _ => []
  end.

(** ** [OffCloud.get_available_torrent] (offcloud_api.py, lines 82-90) *)

Module OffCloudHistory.

(** [needle in hay], for strings. *)
Fixpoint contains (needle hay : string) : bool :=
  if String.prefix needle hay then true
  else
    match hay with
    | EmptyString => false
    | String _ rest => contains needle rest
    end.

Section History.

(** An item of the cloud history ([CloudHistoryItem]), of which the
    method reads [original_link]. *)
Variable Item : Type.
Variable original_link : Item -> option string.
(** [str.casefold] *)
Variable casefold : string -> string.
(** The outcome of [get_user_torrent_list]. *)
Variable get_user_torrent_list : result (option (list Item)).

Definition matches (info_hash : string) (torrent : Item) : bool :=
  match original_link torrent with
  | None | Some EmptyString => false
  | Some link => contains info_hash (casefold link)
  end.

(** The [for torrent in available_torrents] loop. *)
Fixpoint scan (info_hash : string) (torrents : list Item) : option Item :=
  match torrents with
  | [] => None
  | torrent :: rest =>
      if matches info_hash torrent then Some torrent
      else scan info_hash rest
  end.

Definition get_available_torrent (info_hash : string)
  : result (option Item) :=
  match get_user_torrent_list with
  | Raise e => Raise e
  | Ok available_torrents =>
      let info_hash := casefold info_hash in
      match available_torrents with
      | None | Some [] => Ok None
      | Some torrents => Ok (scan info_hash torrents)
      end
  end.

End History.

End OffCloudHistory.

(** * Properties *)

(** ** The dictionary of buckets *)

Module DefaultDictFacts.
Import DefaultDict.

Lemma lookup_app (k : string) (d e : t) :
  lookup k (d ++ e) =
  match lookup k d with Some v => Some v | None => lookup k e end.
Proof.
  induction d as [|[k' v] d IH]; simpl; [reflexivity|].
  destruct (String.eqb k k'); [reflexivity | exact IH].
Qed.

Lemma lookup_none_keys (k : string) (d : t) :
  lookup k d = None -> ~ In k (keys d).
Proof.
  induction d as [|[k' v] d IH]; simpl; [tauto|].
  destruct (String.eqb_spec k k') as [->|Hne]; [discriminate|].
  intros H [E|HIn]; [congruence | exact (IH H HIn)].
Qed.

Lemma lookup_in (k : string) (v : list StreamLink) (d : t) :
  NoDup (keys d) -> In (k, v) d -> lookup k d = Some v.
Proof.
  induction d as [|[k' v'] d IH]; simpl; [tauto|].
  intros Hnd [E|HIn].
  - inversion E; subst. now rewrite String.eqb_refl.
  - inversion Hnd as [|? ? Hnotin Hnd']; subst.
    destruct (String.eqb_spec k k') as [->|Hne]; [|now apply IH].
    exfalso. apply Hnotin. change k' with (fst (k', v)).
    now apply in_map.
Qed.

Lemma get_touch (k k' : string) (d : t) :
  get k' (touch k d) = get k' d.
Proof.
  unfold get, touch. destruct (lookup k d) eqn:E; [reflexivity|].
  rewrite lookup_app. destruct (lookup k' d); [reflexivity|]. simpl.
  now destruct (String.eqb k' k).
Qed.

Lemma lookup_touch (k : string) (d : t) :
  lookup k (touch k d) = Some (get k d).
Proof.
  unfold get, touch. destruct (lookup k d) eqn:E; [exact E|].
  rewrite lookup_app, E. simpl. now rewrite String.eqb_refl.
Qed.

Lemma keys_touch (k : string) (d : t) :
  NoDup (keys d) -> NoDup (keys (touch k d)).
Proof.
  intros Hnd. unfold touch. destruct (lookup k d) eqn:E; [exact Hnd|].
  unfold keys. rewrite map_app. simpl.
  apply (Permutation_NoDup (Permutation_cons_append _ _)).
  apply NoDup_cons; [|exact Hnd]. now apply lookup_none_keys.
Qed.

Lemma chain_touch (k : string) (d : t) :
  chain_values (touch k d) = chain_values d.
Proof.
  unfold touch, chain_values. destruct (lookup k d); [reflexivity|].
  rewrite map_app, concat_app. simpl. now rewrite app_nil_r.
Qed.

Lemma keys_append (k : string) (x : StreamLink) (d : t) :
  keys (append k x d) = keys d.
Proof.
  induction d as [|[k' v] d IH]; simpl; [reflexivity|].
  destruct (String.eqb k k'); simpl; [reflexivity|]. now f_equal.
Qed.

Lemma lookup_append_same (k : string) (x : StreamLink) (d : t)
    (v : list StreamLink) :
  lookup k d = Some v -> lookup k (append k x d) = Some (v ++ [x]).
Proof.
  induction d as [|[k' v'] d IH]; simpl; [discriminate|].
  destruct (String.eqb k k') eqn:E; simpl; rewrite E.
  - now intros [= ->].
  - exact IH.
Qed.

Lemma lookup_append_other (k k' : string) (x : StreamLink) (d : t) :
  k' <> k -> lookup k' (append k x d) = lookup k' d.
Proof.
  intros Hne. induction d as [|[k0 v] d IH]; simpl; [reflexivity|].
  destruct (String.eqb_spec k k0) as [->|Hk]; simpl.
  - destruct (String.eqb_spec k' k0); [contradiction | reflexivity].
  - destruct (String.eqb k' k0); [reflexivity | exact IH].
Qed.

Lemma chain_append_length (k : string) (x : StreamLink) (d : t)
    (v : list StreamLink) :
  lookup k d = Some v ->
  length (chain_values (append k x d)) = S (length (chain_values d)).
Proof.
  unfold chain_values.
  induction d as [|[k' v'] d IH]; simpl; [discriminate|].
  destruct (String.eqb k k'); simpl; intros H.
  - rewrite !length_app. simpl. lia.
  - rewrite !length_app, (IH H). lia.
Qed.

(** With distinct keys, the links of one bucket are those of the
    chained values that a predicate true exactly on that bucket
    selects. *)
Lemma filter_chain (p : string -> StreamLink -> bool) (k : string)
    (d : t) :
  NoDup (keys d) ->
  (forall k' v x, In (k', v) d -> In x v ->
                  p k x = String.eqb k k') ->
  filter (p k) (chain_values d) = get k d.
Proof.
  unfold chain_values, get.
  induction d as [|[k' v] d IH]; simpl; [reflexivity|].
  intros Hnd Hp. inversion Hnd as [|? ? Hnotin Hnd']; subst.
  rewrite filter_app.
  assert (Hrest : filter (p k) (concat (map snd d)) =
                  match lookup k d with Some v0 => v0 | None => [] end).
  { apply IH; [exact Hnd'|]. intros k0 v0 x H1 H2.
    apply (Hp k0 v0 x); [now right | exact H2]. }
  destruct (String.eqb_spec k k') as [->|Hne].
  - assert (Hv : filter (p k') v = v).
    { apply forallb_filter_id. apply forallb_forall. intros x Hx.
      rewrite (Hp k' v x); [apply String.eqb_refl | now left | exact Hx]. }
    rewrite Hv, Hrest.
    destruct (lookup k' d) eqn:E; [|now rewrite app_nil_r].
    exfalso. apply Hnotin. clear - E.
    induction d as [|[k0 v0] d IH]; simpl in *; [discriminate|].
    destruct (String.eqb_spec k' k0); [now left | right; now apply IH].
  - assert (Hall : forall x, In x v -> p k x = false).
    { intros x Hx. rewrite (Hp k' v x); [|now left | exact Hx].
      now apply String.eqb_neq. }
    assert (Hv : filter (p k) v = []).
    { clear - Hall. induction v as [|x v IHv]; simpl; [reflexivity|].
      rewrite (Hall x); [|now left].
      apply IHv. intros y Hy. apply Hall. now right. }
    now rewrite Hv, Hrest.
Qed.

End DefaultDictFacts.

(** ** The loop *)

Section LoopFacts.
Import DefaultDict DefaultDictFacts.

Variable parse_title : string -> Torrent.
Variable G : Z.

Local Abbreviation body := (loop_body parse_title G).
Local Abbreviation Inv := (LoopInv parse_title G).
Local Abbreviation cap := (bucket_cap G).
Local Abbreviation has := (has_resolution parse_title).

Lemma In_firstn {A} (n : nat) (l : list A) (x : A) :
  In x (firstn n l) -> In x l.
Proof.
  intros H. rewrite <- (firstn_skipn n l). apply in_or_app. now left.
Qed.

Lemma filter_snoc (k : string) (seen : list StreamLink) (x : StreamLink) :
  filter (has k) (seen ++ [x]) =
  filter (has k) seen ++ (if has k x then [x] else []).
Proof. rewrite filter_app. reflexivity. Qed.

Lemma inv_init : Inv agg_init [].
Proof.
  constructor; simpl; try reflexivity.
  - constructor.
  - intros k. now rewrite firstn_nil.
Qed.

Lemma bucket_members (st : AggState) (seen : list StreamLink) :
  Inv st seen ->
  forall k v x, In (k, v) (resolution_links st) -> In x v ->
                resolution_of parse_title x = k.
Proof.
  intros HI k v x Hin Hx.
  pose proof (inv_buckets _ _ _ _ HI k) as Hb.
  unfold bucket, get in Hb.
  rewrite (lookup_in k v _ (inv_keys _ _ _ _ HI) Hin) in Hb.
  rewrite Hb in Hx. apply In_firstn in Hx.
  apply filter_In in Hx. destruct Hx as [_ Hx].
  unfold has_resolution in Hx. apply String.eqb_eq in Hx. now symmetry.
Qed.

(** The test of line 79, read on lengths. *)
Lemma full_iff (n : nat) :
  (Z.of_nat n >=? ceil_half G) = true <-> (cap <= n)%nat.
Proof.
  unfold bucket_cap. rewrite Z.geb_le. lia.
Qed.

(** One iteration keeps the invariant, for the links seen plus the
    one just pulled. *)
Lemma body_inv (st st' : AggState) (c : Control)
    (seen : list StreamLink) (x : StreamLink) :
  Inv st seen -> body st x = (st', c) -> Inv st' (seen ++ [x]).
Proof.
  intros HI. unfold loop_body.
  set (r := resolution_of parse_title x).
  set (d := touch r (resolution_links st)).
  assert (Hget : get r d = bucket r st) by apply get_touch.
  assert (Hx : has r x = true) by apply String.eqb_refl.
  assert (Hnd : NoDup (keys d)) by (apply keys_touch, HI).
  pose proof (inv_buckets _ _ _ _ HI) as Hb.
  destruct (Z.of_nat (length (get r d)) >=? ceil_half G) eqn:Efull.
  - (* the bucket is full: the link is discarded *)
    intros [= <- <-]. apply full_iff in Efull.
    constructor; simpl.
    + exact Hnd.
    + intros k. unfold bucket; simpl. fold d.
      unfold d at 1. rewrite get_touch. fold (bucket k st).
      rewrite Hb, filter_snoc.
      destruct (has k x) eqn:Ek; [|now rewrite app_nil_r].
      apply String.eqb_eq in Ek. fold r in Ek. subst k.
      rewrite Hget, Hb, length_firstn in Efull.
      rewrite firstn_app.
      replace (cap - length (filter (has r) seen))%nat with 0%nat by lia.
      simpl. now rewrite app_nil_r.
    + unfold accepted; simpl. fold d. unfold d.
      rewrite chain_touch. apply HI.
    + rewrite length_app. simpl. rewrite (inv_processed _ _ _ _ HI). lia.
    + apply HI.
  - (* the link is accepted *)
    assert (Hlt : (length (get r d) < cap)%nat).
    { destruct (Nat.le_gt_cases cap (length (get r d))) as [H|H];
        [|exact H].
      apply full_iff in H. congruence. }
    assert (HI' : Inv
              {| resolution_links := append r x d;
                 total_links := total_links st + 1;
                 total_processed := total_processed st + 1;
                 stop := stop st |} (seen ++ [x])).
    { constructor; simpl.
      - rewrite keys_append. exact Hnd.
      - intros k. unfold bucket, get; simpl.
        destruct (String.eqb_spec k r) as [->|Hne].
        + rewrite (lookup_append_same r x d (get r (resolution_links st))).
          2:{ apply lookup_touch. }
          fold (bucket r st). rewrite Hb, filter_snoc, Hx.
          rewrite Hget, Hb, length_firstn in Hlt.
          rewrite firstn_all2 by lia.
          rewrite firstn_all2; [reflexivity|].
          rewrite length_app. simpl. lia.
        + rewrite (lookup_append_other r k x d Hne).
          change (get k d = firstn cap (filter (has k) (seen ++ [x]))).
          unfold d. rewrite get_touch. fold (bucket k st).
          rewrite Hb, filter_snoc.
          replace (has k x) with false; [now rewrite app_nil_r|].
          symmetry. apply String.eqb_neq. exact Hne.
      - unfold accepted; simpl.
        rewrite (chain_append_length r x d _ (lookup_touch r _)).
        unfold d. rewrite chain_touch.
        rewrite (inv_total _ _ _ _ HI). unfold accepted. lia.
      - rewrite length_app. simpl. rewrite (inv_processed _ _ _ _ HI). lia.
      - apply HI. }
    simpl. destruct (total_links st + 1 >=? G); intros [= <- <-]; exact HI'.
Qed.

Lemma inv_cap (st : AggState) (seen : list StreamLink) (k : string) :
  Inv st seen -> (length (bucket k st) <= cap)%nat.
Proof.
  intros HI. rewrite (inv_buckets _ _ _ _ HI), length_firstn. lia.
Qed.

(** What one iteration does to the counter of accepted links. *)
Lemma body_total (st st' : AggState) (c : Control) (x : StreamLink) :
  Open G st -> body st x = (st', c) ->
  total_links st' <= Z.max 0 G /\
  match c with
  | Next => Open G st'
  | Break => 1 <= G <= total_links st'
  end.
Proof.
  intros HO. unfold loop_body.
  destruct (Z.of_nat _ >=? ceil_half G) eqn:Efull.
  - intros [= <- <-]. unfold Open in *. simpl. lia.
  - assert (HG : 1 <= G).
    { rewrite Z.geb_leb in Efull. apply Z.leb_gt in Efull.
      unfold ceil_half in *.
      destruct (Z.le_gt_cases 1 G) as [H|H]; [exact H|].
      assert ((G + 1) / 2 < 1) by (apply Z.div_lt_upper_bound; lia).
      lia. }
    simpl. destruct (total_links st + 1 >=? G) eqn:Ecap;
      intros [= <- <-]; simpl; unfold Open in *; simpl.
    + rewrite Z.geb_le in Ecap. lia.
    + rewrite Z.geb_leb in Ecap. apply Z.leb_gt in Ecap. lia.
Qed.

Lemma open_init : Open G agg_init.
Proof. now left. Qed.

(** A state between two iterations is within the caps. *)
Lemma inv_within (st : AggState) (seen : list StreamLink) :
  0 <= G -> Inv st seen -> total_links st <= Z.max 0 G -> Within G st.
Proof.
  intros HG HI Hle. unfold Within.
  rewrite <- (inv_total _ _ _ _ HI).
  split; [lia|]. split; [lia|].
  intros k. pose proof (inv_cap st seen k HI) as Hc.
  unfold bucket_cap in Hc.
  assert (0 <= ceil_half G) by (unfold ceil_half; apply Z.div_pos; lia).
  lia.
Qed.

(** So are the states between the statements of an iteration. *)
Lemma inner_within (st : AggState) (seen : list StreamLink)
    (x : StreamLink) :
  0 <= G -> Inv st seen -> Open G st ->
  Forall (Within G) (body_inner parse_title G st x).
Proof.
  intros HG HI HO.
  assert (Hst : Within G st).
  { apply (inv_within st seen HG HI). unfold Open in HO. lia. }
  destruct Hst as (Hacc & Htot & Hcap).
  unfold body_inner.
  set (r := resolution_of parse_title x).
  set (d := touch r (resolution_links st)).
  assert (Hd : forall k, get k d = bucket k st)
    by (intros k; apply get_touch).
  assert (Hchain : chain_values d = accepted st) by apply chain_touch.
  constructor; [now repeat split|].
  destruct (Z.of_nat (length (get r d)) >=? ceil_half G) eqn:Efull;
    [constructor|].
  assert (Hlt : Z.of_nat (length (get r d)) < ceil_half G).
  { rewrite Z.geb_leb in Efull. now apply Z.leb_gt in Efull. }
  assert (HG1 : 1 <= G).
  { unfold ceil_half in Hlt.
    destruct (Z.le_gt_cases 1 G) as [H|H]; [exact H|].
    assert ((G + 1) / 2 < 1) by (apply Z.div_lt_upper_bound; lia).
    lia. }
  constructor; [|constructor; [|constructor]].
  - unfold Within, accepted, bucket; simpl. rewrite Hchain.
    split; [exact Hacc|]. split; [exact Htot|].
    intros k. rewrite Hd. apply Hcap.
  - unfold Within, accepted, bucket; simpl.
    rewrite (chain_append_length r x d _ (lookup_touch r _)), Hchain.
    pose proof (inv_total _ _ _ _ HI) as Ht. unfold Open in HO.
    split; [lia|]. split; [exact Htot|].
    intros k. unfold get.
    destruct (String.eqb_spec k r) as [->|Hne].
    + rewrite (lookup_append_same r x d _ (lookup_touch r _)).
      rewrite length_app. simpl. rewrite Hd in Hlt. fold (bucket r st). lia.
    + rewrite (lookup_append_other r k x d Hne).
      change (Z.of_nat (length (get k d)) <= ceil_half G).
      rewrite Hd. apply Hcap.
Qed.

(** Every point of the loop is within the caps. *)
Lemma points_within (links : list StreamLink) :
  0 <= G ->
  forall st seen,
    Inv st seen -> Open G st ->
    Forall (Within G) (loop_points parse_title G st links).
Proof.
  intros HG.
  induction links as [|x links IH]; intros st seen HI HO;
    cbn [loop_points].
  - constructor; [|constructor].
    apply (inv_within st seen HG HI). unfold Open in HO. lia.
  - constructor.
    { apply (inv_within st seen HG HI). unfold Open in HO. lia. }
    apply Forall_app. split; [now apply (inner_within st seen)|].
    destruct (body st x) as [st' c] eqn:Eb.
    pose proof (body_inv _ _ _ _ _ HI Eb) as HI'.
    destruct (body_total _ _ _ _ HO Eb) as [Hle Hc].
    destruct c.
    + exact (IH st' _ HI' Hc).
    + constructor; [|constructor].
      exact (inv_within st' _ HG HI' Hle).
Qed.

(** The state in which the loop ends is one of its points. *)
Lemma async_for_point (links : list StreamLink) (fin : option exc) :
  forall st,
    In (fst (async_for parse_title G st links fin))
       (loop_points parse_title G st links).
Proof.
  induction links as [|x links IH]; intros st;
    cbn [loop_points async_for]; [now left|].
  right. apply in_or_app. right.
  destruct (body st x) as [st' []]; simpl.
  - apply IH.
  - now left.
Qed.

(** How the loop ends: it has pulled a prefix of the stream; left by
    [break], the counter has reached the cap; otherwise the whole
    stream was pulled and the counter is below the cap (or zero). *)
Lemma async_for_spec (links : list StreamLink) (fin : option exc) :
  forall st seen st' ex,
    Inv st seen -> Open G st ->
    async_for parse_title G st links fin = (st', ex) ->
    exists n,
      Inv st' (seen ++ firstn n links) /\
      total_links st' <= Z.max 0 G /\
      match ex with
      | Broke => 1 <= G <= total_links st'
      | _ => firstn n links = links /\ Open G st'
      end.
Proof.
  induction links as [|x links IH]; intros st seen st' ex HI HO; simpl.
  - intros [= <- <-]. exists 0%nat. simpl. rewrite app_nil_r.
    split; [exact HI|]. split; [unfold Open in HO; lia|].
    destruct fin; now split.
  - destruct (body st x) as [st1 c] eqn:Eb.
    pose proof (body_inv _ _ _ _ _ HI Eb) as HI1.
    destruct (body_total _ _ _ _ HO Eb) as [Hle Hc].
    destruct c.
    + intros Hrun.
      destruct (IH _ _ _ _ HI1 Hc Hrun) as (n & HIn & Hle' & Hex).
      exists (S n). simpl. rewrite <- app_assoc in HIn. simpl in HIn.
      split; [exact HIn|]. split; [exact Hle'|].
      destruct ex; try exact Hex;
        destruct Hex as [Hall HO']; (split; [now rewrite Hall | exact HO']).
    + intros [= <- <-]. exists 1%nat. simpl.
      split; [exact HI1|]. split; [exact Hle | exact Hc].
Qed.

End LoopFacts.

(** ** The aggregation loop: caps, cancellation, consumption *)

Section AggregateFacts.
Import DefaultDict DefaultDictFacts.

Variable parse_title : string -> Torrent.
Variable G : Z.

(** The outcome of [aggregate], read through [async_for_spec]. *)
Lemma aggregate_spec (s : LinkStream) (st : AggState) (ex : LoopExit) :
  aggregate parse_title G s = (st, ex) ->
  exists n,
    LoopInv parse_title G st (firstn n (yielded s)) /\
    total_links st <= Z.max 0 G /\
    match ex with
    | Broke => 1 <= G <= total_links st
    | _ => firstn n (yielded s) = yielded s /\ Open G st
    end.
Proof.
  intros H.
  exact (async_for_spec parse_title G _ _ _ _ _ _
           (inv_init parse_title G) (open_init G) H).
Qed.

(** The event created at line 69 is never set by the loop. *)
Lemma stop_stays_unset (s : LinkStream) :
  stop (fst (aggregate parse_title G s)) = false.
Proof.
  destruct (aggregate parse_title G s) as [st ex] eqn:E.
  destruct (aggregate_spec _ _ _ E) as (n & HI & _). apply HI.
Qed.


End AggregateFacts.

(** C1. For every global cap [G >= 0] and every sequence of links the
    resolver produces, at every point of the aggregation loop (between
    any two of its statements, and in the state it ends in) the links
    accepted across all buckets number at most [G], as does the counter
    [total_links], and every bucket holds at most [ceil(G/2)] links.
    When the loop has ended, [total_links] is the number of links
    accepted. *)
Theorem aggregation_respects_caps (parse_title : string -> Torrent)
    (G : Z) (s : LinkStream) :
  0 <= G ->
  let final := fst (aggregate parse_title G s) in
  Forall (fun st =>
            Z.of_nat (length (accepted st)) <= G /\
            total_links st <= G /\
            forall k, Z.of_nat (length (bucket k st)) <= ceil_half G)
         (loop_points parse_title G agg_init (yielded s))
  /\ In final (loop_points parse_title G agg_init (yielded s))
  /\ total_links final = Z.of_nat (length (accepted final)).
Proof.
  intros HG final. split; [|split].
  - exact (points_within parse_title G (yielded s) HG agg_init []
             (inv_init parse_title G) (open_init G)).
  - apply async_for_point.
  - subst final.
    destruct (aggregate parse_title G s) as [st ex] eqn:E.
    destruct (aggregate_spec _ _ _ _ _ E) as (n & HI & _). apply HI.
Qed.

Lemma aggregation_respects_caps_witness :
  let links := [Sample.a1080; Sample.d720; Sample.b1080; Sample.c1080;
                Sample.e720] in
  let final := fst (aggregate Sample.parse 4 (Sample.ends links)) in
  Forall (fun st =>
            Z.of_nat (length (accepted st)) <= 4 /\
            total_links st <= 4 /\
            forall k, Z.of_nat (length (bucket k st)) <= ceil_half 4)
         (loop_points Sample.parse 4 agg_init links)
  /\ In final (loop_points Sample.parse 4 agg_init links)
  /\ total_links final = Z.of_nat (length (accepted final)).
Proof.
  apply (aggregation_respects_caps Sample.parse 4
           (Sample.ends [Sample.a1080; Sample.d720; Sample.b1080;
                         Sample.c1080; Sample.e720])).
  lia.
Defined.

(** C2, at the input where the code departs from it: with cap 1 and a
    resolver that yields one link, the loop accepts that link, reaches
    the cap and leaves by [break], and the event passed to the resolver
    is still unset. *)
Theorem cap_reached_without_cancellation :
  let '(st, ex) := aggregate Sample.parse 1 (Sample.ends [Sample.a1080]) in
  total_links st = 1 /\ ex = Broke /\ stop st = false.
Proof. vm_compute. repeat split. Qed.

(** C3, as the code has it.  With a cap of zero or less nothing is
    accepted, the loop never leaves by [break], and every link the
    resolver yields is pulled and discarded. *)
Theorem nonpositive_cap_drains_stream (parse_title : string -> Torrent)
    (G : Z) (s : LinkStream) :
  G <= 0 ->
  let '(st, ex) := aggregate parse_title G s in
  accepted st = [] /\
  total_links st = 0 /\
  total_processed st = Z.of_nat (length (yielded s)) /\
  ex <> Broke.
Proof.
  intros HG. destruct (aggregate parse_title G s) as [st ex] eqn:E.
  destruct (aggregate_spec _ _ _ _ _ E) as (n & HI & Hle & Hex).
  pose proof (inv_total _ _ _ _ HI) as Ht.
  assert (Hz : total_links st = 0) by lia.
  assert (Hnb : ex <> Broke) by (intros ->; lia).
  repeat split; try assumption.
  - rewrite Hz in Ht. destruct (accepted st); [reflexivity | discriminate].
  - rewrite (inv_processed _ _ _ _ HI).
    destruct ex; try contradiction; destruct Hex as [-> _]; reflexivity.
Qed.

Lemma nonpositive_cap_drains_stream_witness :
  0 <= 0 /\
  let '(st, ex) :=
    aggregate Sample.parse 0 (Sample.ends [Sample.a1080; Sample.d720]) in
  accepted st = [] /\
  total_links st = 0 /\
  total_processed st = Z.of_nat 2 /\
  ex <> Broke.
Proof.
  split; [lia|].
  apply (nonpositive_cap_drains_stream Sample.parse 0
           (Sample.ends [Sample.a1080; Sample.d720])).
  lia.
Defined.

(** C3 as stated fails: with cap 0 and a resolver that yields one link,
    the loop pulls that link and the event stays unset. *)
Lemma nonpositive_cap_consumes_counterexample :
  let st := fst (aggregate Sample.parse 0 (Sample.ends [Sample.a1080])) in
  ~ (total_links st = 0 /\ total_processed st = 0 /\ stop st = true).
Proof. vm_compute. intros (_ & H & _). discriminate H. Qed.



(** ** What the loop pulled, and the keys of its buckets *)

Section PulledFacts.
Import DefaultDict DefaultDictFacts.

Variable parse_title : string -> Torrent.
Variable G : Z.

Local Abbreviation res := (resolution_of parse_title).

Lemma firstn_length_firstn {A} (n : nat) (l : list A) :
  firstn (length (firstn n l)) l = firstn n l.
Proof.
  rewrite length_firstn.
  destruct (Nat.le_gt_cases n (length l)) as [H|H].
  - now rewrite Nat.min_l.
  - rewrite Nat.min_r by lia.
    rewrite firstn_all. symmetry. apply firstn_all2. lia.
Qed.

(** [aggregate_spec], with the prefix named. *)
Lemma aggregate_pulled (s : LinkStream) (st : AggState) (ex : LoopExit) :
  aggregate parse_title G s = (st, ex) ->
  LoopInv parse_title G st (pulled parse_title G s) /\
  total_links st <= Z.max 0 G /\
  match ex with
  | Broke => 1 <= G <= total_links st
  | _ => pulled parse_title G s = yielded s /\ Open G st
  end.
Proof.
  intros E. destruct (aggregate_spec _ _ _ _ _ E) as (n & HI & Hle & Hex).
  assert (Hp : pulled parse_title G s = firstn n (yielded s)).
  { unfold pulled. rewrite E. simpl.
    rewrite (inv_processed _ _ _ _ HI), Nat2Z.id.
    apply firstn_length_firstn. }
  rewrite Hp. split; [exact HI|]. split; [exact Hle|].
  destruct ex; try exact Hex.
Qed.

Lemma exit_follows_ending (links : list StreamLink) (fin : option exc) :
  forall st,
    match snd (async_for parse_title G st links fin) with
    | Broke => True
    | Exhausted => fin = None
    | Faulted e => fin = Some e
    end.
Proof.
  induction links as [|x links IH]; intros st; simpl.
  - now destruct fin.
  - destruct (loop_body parse_title G st x) as [st' []]; simpl;
      [apply IH | exact I].
Qed.

Lemma broke_ignores_rest (pre rest : list StreamLink)
    (fin fin' : option exc) :
  forall st st',
    async_for parse_title G st pre fin = (st', Broke) ->
    async_for parse_title G st (pre ++ rest) fin' = (st', Broke).
Proof.
  induction pre as [|x pre IH]; intros st st'; simpl.
  - destruct fin; discriminate.
  - destruct (loop_body parse_title G st x) as [st1 []]; [apply IH|].
    now intros [= <-].
Qed.

Lemma counters_ordered (links : list StreamLink) (fin : option exc) :
  forall st,
    total_links st <= total_processed st ->
    let st' := fst (async_for parse_title G st links fin) in
    total_links st' <= total_processed st'.
Proof.
  induction links as [|x links IH]; intros st H; simpl; [exact H|].
  destruct (loop_body parse_title G st x) as [st1 c] eqn:Eb.
  assert (H1 : total_links st1 <= total_processed st1).
  { unfold loop_body in Eb.
    destruct (Z.of_nat _ >=? ceil_half G) in Eb;
      [|destruct (_ >=? G) in Eb]; injection Eb as <- _; simpl; lia. }
  destruct c; simpl; [now apply IH | exact H1].
Qed.

Lemma existsb_keys (k : string) (d : DefaultDict.t) :
  existsb (String.eqb k) (keys d) =
  match lookup k d with Some _ => true | None => false end.
Proof.
  induction d as [|[k' v] d IH]; simpl; [reflexivity|].
  destruct (String.eqb k k'); [reflexivity | exact IH].
Qed.

Lemma keys_touch_note (k : string) (d : DefaultDict.t) :
  keys (touch k d) = note_label (keys d) k.
Proof.
  unfold touch, note_label. rewrite existsb_keys.
  destruct (lookup k d); [reflexivity|].
  unfold keys. now rewrite map_app.
Qed.

Lemma body_keys (st : AggState) (x : StreamLink) :
  let st' := fst (loop_body parse_title G st x) in
  keys (resolution_links st')
  = note_label (keys (resolution_links st)) (res x)
  /\ total_processed st' = total_processed st + 1.
Proof.
  unfold loop_body.
  destruct (Z.of_nat _ >=? ceil_half G); [|destruct (_ >=? G)]; simpl;
    rewrite ?keys_append, keys_touch_note; now split.
Qed.

Lemma async_for_keys (links : list StreamLink) (fin : option exc) :
  forall st,
    let st' := fst (async_for parse_title G st links fin) in
    exists n,
      total_processed st'
      = total_processed st + Z.of_nat (length (firstn n links)) /\
      keys (resolution_links st')
      = fold_left note_label (map res (firstn n links))
          (keys (resolution_links st)).
Proof.
  induction links as [|x links IH]; intros st; simpl.
  - exists 0%nat. simpl. split; [lia | reflexivity].
  - destruct (body_keys st x) as [Hk Hp].
    destruct (loop_body parse_title G st x) as [st1 c]. simpl in Hk, Hp.
    destruct c; simpl.
    + destruct (IH st1) as (n & Hn & Hkeys).
      exists (S n). simpl. rewrite Hn, Hkeys, Hk, Hp. split; [lia|].
      reflexivity.
    + exists 1%nat. simpl. rewrite Hk, Hp. split; [lia | reflexivity].
Qed.

(** The keys of the dictionary, when the loop has ended. *)
Lemma keys_are_labels (s : LinkStream) :
  keys (resolution_links (fst (aggregate parse_title G s)))
  = first_occurrences (map res (pulled parse_title G s)).
Proof.
  destruct (aggregate parse_title G s) as [st ex] eqn:E.
  destruct (aggregate_pulled _ _ _ E) as (HI & _).
  destruct (async_for_keys (yielded s) (ending s) agg_init)
    as (n & Hn & Hk).
  fold (aggregate parse_title G s) in Hn, Hk. rewrite E in Hn, Hk.
  simpl in Hn, Hk. simpl.
  assert (Hp : pulled parse_title G s = firstn n (yielded s)).
  { unfold pulled. rewrite E. simpl. rewrite Hn, Nat2Z.id.
    apply firstn_length_firstn. }
  rewrite Hp. exact Hk.
Qed.

(** [chain] walks the buckets in the order of the keys. *)
Lemma accepted_by_keys (st : AggState) (seen : list StreamLink) :
  LoopInv parse_title G st seen ->
  accepted st
  = flat_map
      (fun k =>
         firstn (bucket_cap G) (filter (has_resolution parse_title k) seen))
      (keys (resolution_links st)).
Proof.
  intros HI. unfold accepted, chain_values, keys.
  rewrite flat_map_concat_map, map_map. f_equal.
  apply map_ext_in. intros [k v] Hkv. simpl.
  rewrite <- (inv_buckets _ _ _ _ HI k). unfold bucket, get.
  now rewrite (lookup_in k v _ (inv_keys _ _ _ _ HI) Hkv).
Qed.

Lemma filter_flat_map {A B} (p : B -> bool) (f : A -> list B)
    (l : list A) :
  filter p (flat_map f l) = flat_map (fun a => filter p (f a)) l.
Proof.
  induction l as [|a l IH]; simpl; [reflexivity|].
  now rewrite filter_app, IH.
Qed.

Lemma flat_map_nil {A B} (f : A -> list B) (l : list A) :
  (forall a, In a l -> f a = []) -> flat_map f l = [].
Proof.
  induction l as [|a l IH]; simpl; intros H; [reflexivity|].
  rewrite (H a) by now left. apply IH. intros b Hb. apply H. now right.
Qed.

(** Of a run of links of one label, a test for two labels keeps all or
    nothing. *)
Lemma filter_two_labels (k k1 k2 : string) (n : nat)
    (seen : list StreamLink) :
  filter (fun x => has_resolution parse_title k1 x
                   || has_resolution parse_title k2 x)
         (firstn n (filter (has_resolution parse_title k) seen))
  = if String.eqb k1 k || String.eqb k2 k
    then firstn n (filter (has_resolution parse_title k) seen)
    else [].
Proof.
  set (run := firstn n (filter (has_resolution parse_title k) seen)).
  assert (Hrun : forall x, In x run -> res x = k).
  { intros x Hx. apply In_firstn in Hx. apply filter_In in Hx.
    destruct Hx as [_ Hx]. unfold has_resolution in Hx.
    apply String.eqb_eq in Hx. now symmetry. }
  clearbody run. induction run as [|x run IH]; simpl.
  - now destruct (_ || _).
  - unfold has_resolution at 1 2. rewrite (Hrun x) by now left.
    rewrite IH by (intros y Hy; apply Hrun; now right).
    now destruct (String.eqb k1 k || String.eqb k2 k).
Qed.

End PulledFacts.

(** ** Ranking *)

Section RankFacts.

Variable rank_quality : string -> Z.

Local Abbreviation key := (rank_key rank_quality).
Local Abbreviation ins := (insert_desc rank_quality).
Local Abbreviation srt := (sorted_reverse rank_quality).

Lemma insert_perm (x : StreamLink) (l : list StreamLink) :
  Permutation (ins x l) (x :: l).
Proof.
  induction l as [|y l IH]; simpl; [reflexivity|].
  destruct (key x <? key y); [|reflexivity].
  rewrite IH. apply perm_swap.
Qed.

Lemma sorted_perm (l : list StreamLink) : Permutation (srt l) l.
Proof.
  induction l as [|x l IH]; simpl; [constructor|].
  rewrite insert_perm. now constructor.
Qed.

Lemma insert_descending (x : StreamLink) (l : list StreamLink) :
  descending rank_quality l -> descending rank_quality (ins x l).
Proof.
  induction l as [|y l IH]; simpl.
  - intros _. split; [constructor | exact I].
  - intros [Hall Hd]. destruct (key x <? key y) eqn:E.
    + apply Z.ltb_lt in E. simpl. split; [|now apply IH].
      apply (Permutation_Forall (Permutation_sym (insert_perm x l))).
      constructor; [lia | exact Hall].
    + apply Z.ltb_ge in E. simpl. repeat split; try assumption.
      constructor; [exact E|].
      eapply Forall_impl; [|exact Hall]. simpl. intros z Hz. lia.
Qed.

Lemma sorted_descending (l : list StreamLink) :
  descending rank_quality (srt l).
Proof.
  induction l as [|x l IH]; simpl; [exact I|].
  now apply insert_descending.
Qed.

(** Inserting [x] walks only past links of strictly greater score, so
    among the links of any one score the order is untouched. *)
Lemma filter_insert (score : Z) (x : StreamLink) (l : list StreamLink) :
  filter (scored rank_quality score) (ins x l) =
  filter (scored rank_quality score) (x :: l).
Proof.
  induction l as [|y l IH]; simpl; [reflexivity|].
  destruct (key x <? key y) eqn:E; [|reflexivity].
  apply Z.ltb_lt in E. simpl in *. rewrite IH.
  unfold scored.
  destruct (key x =? score) eqn:Ex; destruct (key y =? score) eqn:Ey;
    try reflexivity.
  apply Z.eqb_eq in Ex, Ey. lia.
Qed.

Lemma sorted_stable (score : Z) (l : list StreamLink) :
  filter (scored rank_quality score) (srt l) =
  filter (scored rank_quality score) l.
Proof.
  induction l as [|x l IH]; simpl; [reflexivity|].
  rewrite filter_insert. simpl. now rewrite IH.
Qed.

Lemma filter_and {A} (p q : A -> bool) (l : list A) :
  filter (fun x => p x && q x) l = filter p (filter q l).
Proof.
  induction l as [|x l IH]; simpl; [reflexivity|].
  destruct (q x); simpl.
  - rewrite andb_true_r. now rewrite IH.
  - rewrite andb_false_r. exact IH.
Qed.

Lemma filter_swap {A} (p q : A -> bool) (l : list A) :
  filter p (filter q l) = filter q (filter p l).
Proof.
  rewrite <- !filter_and. apply filter_ext. intros x. apply andb_comm.
Qed.

End RankFacts.

(** The labels in order of first occurrence hold each label once. *)
Lemma labels_nodup (parse_title : string -> Torrent) (G : Z)
    (s : LinkStream) :
  NoDup (first_occurrences
           (map (resolution_of parse_title) (pulled parse_title G s))).
Proof.
  rewrite <- keys_are_labels.
  destruct (aggregate parse_title G s) as [st ex] eqn:E.
  destruct (aggregate_pulled _ _ _ _ _ E) as (HI & _).
  apply HI.
Qed.

(** Two labels of a sequence without repetition select, from the chain
    of the runs of all labels, the run of the first and then the run of
    the second. *)
Lemma two_runs (parse_title : string -> Torrent) (n : nat)
    (seen : list StreamLink) (k1 k2 : string) (labels : list string) :
  NoDup labels ->
  label_precedes k1 k2 labels ->
  let run k := firstn n (filter (has_resolution parse_title k) seen) in
  filter (fun x => has_resolution parse_title k1 x
                   || has_resolution parse_title k2 x)
         (flat_map run labels)
  = run k1 ++ run k2.
Proof.
  intros Hnd (l1 & l2 & l3 & ->) run.
  rewrite filter_flat_map.
  assert (Hother : forall l,
             ~ In k1 l -> ~ In k2 l ->
             flat_map
               (fun k =>
                  filter (fun x => has_resolution parse_title k1 x
                                   || has_resolution parse_title k2 x)
                         (run k)) l = []).
  { intros l H1 H2. apply flat_map_nil. intros k Hk. unfold run.
    rewrite filter_two_labels.
    destruct (String.eqb k1 k) eqn:E1;
      [apply String.eqb_eq in E1; subst k; contradiction|].
    destruct (String.eqb k2 k) eqn:E2;
      [apply String.eqb_eq in E2; subst k; contradiction|].
    reflexivity. }
  assert (Hne : k1 <> k2).
  { intros ->. apply NoDup_remove_2 in Hnd. apply Hnd.
    rewrite !in_app_iff. right. right. now left. }
  assert (H1 : ~ In k1 l1 /\ ~ In k1 l2 /\ ~ In k1 l3).
  { apply NoDup_remove_2 in Hnd. rewrite !in_app_iff in Hnd. simpl in Hnd.
    tauto. }
  assert (H2 : ~ In k2 l1 /\ ~ In k2 l2 /\ ~ In k2 l3).
  { replace (l1 ++ k1 :: l2 ++ k2 :: l3)
      with ((l1 ++ k1 :: l2) ++ k2 :: l3) in Hnd
      by (rewrite <- app_assoc; reflexivity).
    apply NoDup_remove_2 in Hnd. rewrite !in_app_iff in Hnd. simpl in Hnd.
    tauto. }
  rewrite flat_map_app. simpl. rewrite flat_map_app. simpl.
  rewrite !Hother by tauto.
  unfold run at 1 2. rewrite !filter_two_labels.
  rewrite !String.eqb_refl, orb_true_r. simpl.
  now rewrite app_nil_r.
Qed.

(** C6, as the code has it.  The links the loop holds are chained
    bucket after bucket, the buckets in the order in which their labels
    first arrived, each bucket holding in arrival order the first
    [ceil(G/2)] pulled links of its label.  The ranked sequence is that
    chain rearranged in descending score, and it is stable with respect
    to it: the links of any one score keep the order of the chain.  So
    links of one score from the same bucket stay in arrival order,
    while links of one score from two different buckets come bucket by
    bucket, all those of the label that arrived first before all those
    of the other, whatever their own arrival order. *)
Theorem ranking_stable_in_chain_order (parse_title : string -> Torrent)
    (rank_quality : string -> Z) (G : Z) (s : LinkStream) :
  let st := fst (aggregate parse_title G s) in
  let got := pulled parse_title G s in
  let labels := first_occurrences (map (resolution_of parse_title) got) in
  let held k :=
    firstn (bucket_cap G) (filter (has_resolution parse_title k) got) in
  let out := rank rank_quality st in
  accepted st = flat_map held labels /\
  (forall k, bucket k st = held k) /\
  Permutation out (accepted st) /\
  descending rank_quality out /\
  (forall score,
      filter (scored rank_quality score) out =
      filter (scored rank_quality score) (flat_map held labels)) /\
  (forall score k,
      filter (fun x => scored rank_quality score x
                       && has_resolution parse_title k x) out =
      filter (scored rank_quality score) (held k)) /\
  (forall score k1 k2,
      label_precedes k1 k2 labels ->
      filter (fun x => scored rank_quality score x
                       && (has_resolution parse_title k1 x
                           || has_resolution parse_title k2 x)) out =
      filter (scored rank_quality score) (held k1)
      ++ filter (scored rank_quality score) (held k2)).
Proof.
  intros st got labels held out.
  pose proof (labels_nodup parse_title G s) as Hnd. fold got labels in Hnd.
  pose proof (keys_are_labels parse_title G s) as Hkeys.
  fold st got labels in Hkeys.
  subst out. unfold rank.
  destruct (aggregate parse_title G s) as [st' ex] eqn:E.
  destruct (aggregate_pulled _ _ _ _ _ E) as (HI & _).
  fold got in HI. simpl in st. subst st.
  assert (Hacc : accepted st' = flat_map held labels).
  { rewrite (accepted_by_keys _ _ _ _ HI), Hkeys. reflexivity. }
  split; [exact Hacc|].
  split; [intros k; apply HI|].
  split; [apply sorted_perm|]. split; [apply sorted_descending|].
  split; [intros score; rewrite sorted_stable, Hacc; reflexivity|].
  split.
  - intros score k.
    rewrite filter_and, filter_swap, sorted_stable, filter_swap.
    f_equal. unfold held. rewrite <- (inv_buckets _ _ _ _ HI k).
    unfold accepted, bucket.
    apply DefaultDictFacts.filter_chain with
      (p := has_resolution parse_title); [apply HI|].
    intros k' v x Hin Hx. unfold has_resolution.
    now rewrite (bucket_members parse_title G _ _ HI k' v x Hin Hx).
  - intros score k1 k2 Hprec.
    rewrite filter_and, filter_swap, sorted_stable, filter_swap, Hacc.
    unfold held. rewrite (two_runs _ _ _ _ _ _ Hnd Hprec).
    apply filter_app.
Qed.

(** C6 as stated fails.  The resolver yields a "480p" link, then a link
    with no resolution marker, then a second "480p" link; all three
    score 0.  The second arrival is ranked after the third, because the
    "480p" bucket is chained before the "unknown" bucket. *)
Lemma ranking_arrival_order_counterexample :
  ~ ranking_keeps_arrival_order Sample.parse Sample.score 4
      (Sample.ends [Sample.f480; Sample.hcam; Sample.g480]).
Proof.
  intros H. specialize (H Sample.hcam Sample.g480).
  destruct H as (i & j & Hi & Hj & Hlt).
  - vm_compute. tauto.
  - vm_compute. tauto.
  - reflexivity.
  - exists 1%nat, 2%nat. repeat split. lia.
  - vm_compute in Hi, Hj. injection Hi as <-. injection Hj as <-. lia.
Qed.

(** On that stream the ranked sequence is the "480p" bucket, then the
    bucket of the link without a marker. *)
Example ranking_follows_bucket_order :
  rank Sample.score
    (fst (aggregate Sample.parse 4
            (Sample.ends [Sample.f480; Sample.hcam; Sample.g480])))
  = [Sample.f480; Sample.g480; Sample.hcam].
Proof. reflexivity. Qed.

(** ** Formatting *)

Section FormatFacts.

Variable parse_title : string -> Torrent.
Variable human_bytes : Z -> string.
Variable short_name : string.

Local Abbreviation fmt := (format_link parse_title human_bytes short_name).

Lemma format_links_from (l : list StreamLink) :
  forall acc,
    fold_left (fun a link => a ++ [fmt link]) l acc = acc ++ map fmt l.
Proof.
  induction l as [|x l IH]; intros acc; simpl.
  - now rewrite app_nil_r.
  - rewrite IH, <- app_assoc. reflexivity.
Qed.

(** The formatting loop builds one record per link, in order. *)
Lemma format_links_map (l : list StreamLink) :
  format_links parse_title human_bytes short_name l = map fmt l.
Proof. unfold format_links. now rewrite format_links_from. Qed.

Lemma format_links_urls (l : list StreamLink) :
  map Stream.url (format_links parse_title human_bytes short_name l)
  = map url l.
Proof.
  rewrite format_links_map, map_map. reflexivity.
Qed.

End FormatFacts.

(** ** [_search], stage by stage *)

Ltac run_search H :=
  unfold _search, bind, call, lift, ret, raise, emit in H;
  repeat match type of H with
         | context [match ?x with _ => _ end] =>
             let E := fresh "E" in destruct x eqn:E
         end.

(** A response without an error message is the ranking and formatting
    of the state in which the aggregation loop ended. *)
Lemma _search_success (env : Env) (type : string) (G : Z)
    (debrid : DebridService.t) (imdb_id : string)
    (season_episode : list Z) (indexers : list string)
    (h : list Event) (resp : StreamResponse) :
  fst (_search env type G debrid imdb_id season_episode indexers h)
  = Ok resp ->
  error resp = None ->
  exists torrents links st ex,
    DebridService.get_stream_links debrid
      (stream_links_kwargs torrents season_episode G) = Ok links /\
    aggregate (Torrent_parse_title env) G links = (st, ex) /\
    resp = respond env debrid st.
Proof.
  intros H Herr.
  destruct (_search env type G debrid imdb_id season_episode indexers h)
    as [r h'] eqn:Hs.
  simpl in H. subst r.
  run_search Hs; try discriminate; injection Hs as <- _;
    try discriminate Herr.
  all: match goal with
       | Ea : aggregate _ _ ?l = (?st, ?ex),
         Eg : DebridService.get_stream_links _ (stream_links_kwargs ?t _ _)
              = Ok ?l |- _ =>
           exists t, l, st, ex; split; [exact Eg|]; split; [exact Ea|]
       end.
  all: reflexivity.
Qed.

(** C8. When [_search] returns the response built by ranking and
    formatting (the one without an error message), the resolver's
    stream was aggregated into a final state [st], and the response
    holds exactly one [Stream] per accepted link: as many streams as
    links accepted, each the formatting of one link, in ranked order,
    none dropped. *)
Theorem one_stream_per_accepted_link (env : Env) (type : string) (G : Z)
    (debrid : DebridService.t) (imdb_id : string)
    (season_episode : list Z) (indexers : list string)
    (h : list Event) (resp : StreamResponse) :
  fst (_search env type G debrid imdb_id season_episode indexers h)
  = Ok resp ->
  error resp = None ->
  exists torrents links st ex,
    DebridService.get_stream_links debrid
      (stream_links_kwargs torrents season_episode G) = Ok links /\
    aggregate (Torrent_parse_title env) G links = (st, ex) /\
    Z.of_nat (length (streams resp)) = total_links st /\
    length (streams resp) = length (accepted st) /\
    streams resp =
      map (format_link (Torrent_parse_title env) (human_bytes env)
             (DebridService.short_name debrid))
          (rank (human_rank_quality env) st) /\
    map Stream.url (streams resp)
    = map url (rank (human_rank_quality env) st) /\
    Permutation (map Stream.url (streams resp)) (map url (accepted st)).
Proof.
  intros H Herr.
  destruct (_search_success _ _ _ _ _ _ _ _ _ H Herr)
    as (torrents & links & st & ex & Hg & Ha & ->).
  exists torrents, links, st, ex.
  destruct (aggregate_spec _ _ _ _ _ Ha) as (n & HI & _).
  assert (Hp : Permutation (rank (human_rank_quality env) st) (accepted st))
    by apply sorted_perm.
  unfold respond; simpl. rewrite format_links_map.
  split; [exact Hg|]. split; [exact Ha|].
  assert (Hlen : length
            (map (format_link (Torrent_parse_title env) (human_bytes env)
                    (DebridService.short_name debrid))
                 (rank (human_rank_quality env) st))
          = length (accepted st)).
  { rewrite length_map. apply (Permutation_length Hp). }
  split; [rewrite Hlen; symmetry; apply HI|].
  split; [exact Hlen|].
  split; [reflexivity|].
  rewrite map_map. simpl.
  split; [reflexivity|].
  apply Permutation_map. exact Hp.
Qed.

Lemma one_stream_per_accepted_link_witness :
  let links := [Sample.a1080; Sample.d720; Sample.b1080; Sample.c1080;
                Sample.e720] in
  let debrid := Sample.provider (Sample.ends links) in
  let env := Sample.env (Some Sample.movie) in
  let resp :=
    respond env debrid (fst (aggregate Sample.parse 4 (Sample.ends links))) in
  exists torrents links' st ex,
    DebridService.get_stream_links debrid
      (stream_links_kwargs torrents [] 4) = Ok links' /\
    aggregate (Torrent_parse_title env) 4 links' = (st, ex) /\
    Z.of_nat (length (streams resp)) = total_links st /\
    length (streams resp) = length (accepted st) /\
    streams resp =
      map (format_link (Torrent_parse_title env) (human_bytes env)
             (DebridService.short_name debrid))
          (rank (human_rank_quality env) st) /\
    map Stream.url (streams resp)
    = map url (rank (human_rank_quality env) st) /\
    Permutation (map Stream.url (streams resp)) (map url (accepted st)).
Proof.
  intros links debrid env resp.
  apply (one_stream_per_accepted_link env "movie" 4 debrid "tt1234567"
           [] ["yts"] [] resp); reflexivity.
Defined.

(** ** The orchestrator *)

(** The events [_search] adds when metadata lookup finds nothing. *)
Lemma no_metadata_events_calm (fresh : bool) (imdb_id type key : string) :
  existsb later_stage
    (EvUniqueAdd "stream_request" key
     :: (if fresh then [EvUniqueSearchesInc] else [])
     ++ [EvGetMediaInfo imdb_id type]) = false.
Proof. now destruct fresh. Qed.

(** C4. Whenever metadata lookup returns nothing, [_search] returns the
    response with no streams and the message "Error getting media
    info", and what it did to the outside ends with the lookup: no
    indexer is searched and no resolver is called, so nothing is
    aggregated, ranked or formatted. *)
Theorem no_metadata_short_circuits (env : Env) (type : string) (G : Z)
    (debrid : DebridService.t) (imdb_id : string)
    (season_episode : list Z) (indexers : list string)
    (h : list Event) (fresh : bool) :
  let key := (imdb_id ++ ":" ++ repr_ints season_episode)%string in
  db_unique_add env "stream_request" key = Ok fresh ->
  get_media_info env imdb_id type = Ok None ->
  let added :=
    EvUniqueAdd "stream_request" key
    :: (if fresh then [EvUniqueSearchesInc] else [])
    ++ [EvGetMediaInfo imdb_id type] in
  _search env type G debrid imdb_id season_episode indexers h
  = (Ok {| streams := [];
           error := Some "Error getting media info";
           cached := false |},
     h ++ added)
  /\ existsb later_stage added = false.
Proof.
  intros key Hadd Hinfo added. split; [|apply no_metadata_events_calm].
  unfold _search, bind, call, lift, ret, emit. fold key.
  rewrite Hadd, Hinfo. subst added.
  destruct fresh; simpl; rewrite <- ?app_assoc; reflexivity.
Qed.

Lemma no_metadata_short_circuits_witness :
  _search (Sample.env None) "movie" 4
    (Sample.provider (Sample.ends [Sample.a1080])) "tt0000000" [] [] []
  = (Ok {| streams := [];
           error := Some "Error getting media info";
           cached := false |},
     [EvUniqueAdd "stream_request" "tt0000000:[]";
      EvUniqueSearchesInc;
      EvGetMediaInfo "tt0000000" "movie"]).
Proof.
  apply (no_metadata_short_circuits (Sample.env None) "movie" 4
           (Sample.provider (Sample.ends [Sample.a1080])) "tt0000000"
           [] [] [] true); reflexivity.
Defined.

(** [_search] itself records no request duration. *)
Lemma _search_observes_nothing (env : Env) (type : string) (G : Z)
    (debrid : DebridService.t) (imdb_id : string)
    (season_episode : list Z) (indexers : list string) (h : list Event) :
  observations
    (snd (_search env type G debrid imdb_id season_episode indexers h))
  = observations h.
Proof.
  destruct (_search env type G debrid imdb_id season_episode indexers h)
    as [r h'] eqn:Hs.
  simpl.
  assert (Hadd : forall (k : list Event) (ev : Event),
             observations [ev] = [] ->
             observations (k ++ [ev]) = observations k).
  { intros k ev Hev. unfold observations in *.
    now rewrite flat_map_app, Hev, app_nil_r. }
  run_search Hs; injection Hs as _ <-;
    repeat match goal with
           | H : (_, _) = (_, _) |- _ => injection H as _ <-
           | H : (if ?b then _ else _) _ = _ |- _ => destruct b; simpl in H
           end;
    repeat (rewrite Hadd; [|reflexivity]); reflexivity.
Qed.

(** What the [try] statement makes of the outcome of its attempt. *)
Lemma guard_outcome (attempt : M StreamResponse) (type : string)
    (debrid : DebridService.t) (imdb_id : string)
    (season_episode : list Z) (h : list Event) :
  let '(r, h1) := attempt h in
  let res :=
    match r with
    | Ok resp => Some resp
    | Raise e => if is_Exception e then Some search_error else None
    end in
  search_guard attempt type debrid imdb_id season_episode h
  = (if exemplar_fits imdb_id season_episode
     then match r with
          | Ok resp => Ok resp
          | Raise e => if is_Exception e then Ok search_error else Raise e
          end
     else Raise exemplar_error,
     h1 ++ [EvObserve
              {| o_type := type;
                 o_debrid_service := DebridService.id debrid;
                 o_cached := cached_label res;
                 o_error := error_label res;
                 o_imdb := imdb_id;
                 o_season_episode :=
                   Str.join "," (map Str.of_Z season_episode) |}]).
Proof.
  unfold search_guard, try_except_finally, observe_request, call, ret.
  destruct (attempt h) as [[resp|e] h1];
    [|destruct (is_Exception e)];
    destruct (exemplar_fits imdb_id season_episode); reflexivity.
Qed.

(** What [search] makes of the outcome of [_search]. *)
Lemma search_outcome (env : Env) (type : string) (G : Z)
    (debrid : DebridService.t) (imdb_id : string)
    (season_episode : list Z) (indexers : list string) (h : list Event) :
  fst (search env type G debrid imdb_id season_episode indexers h)
  = if exemplar_fits imdb_id season_episode
    then match
           fst (_search env type G debrid imdb_id season_episode indexers h)
         with
         | Ok resp => Ok resp
         | Raise e => if is_Exception e then Ok search_error else Raise e
         end
    else Raise exemplar_error.
Proof.
  unfold search.
  pose proof (guard_outcome
                (_search env type G debrid imdb_id season_episode indexers)
                type debrid imdb_id season_episode h) as Hg.
  destruct (_search env type G debrid imdb_id season_episode indexers h)
    as [r h1].
  now rewrite Hg.
Qed.

Lemma observations_snoc (h : list Event) (o : Observation) :
  observations (h ++ [EvObserve o]) = observations h ++ [o].
Proof. unfold observations. now rewrite flat_map_app. Qed.

(** C5, as the code has it.  The [try] statement of [search] is taken
    around any attempt at all, so that a fault of any stage of
    [_search], ranking and formatting included, is one of its cases;
    the request's exemplar is within the histogram's limit.  If the
    attempt returned a response, that response is returned.  If it
    raised an [Exception], the response with no streams and the message
    "Error searching" is returned and nothing is propagated.  If it
    raised [asyncio.CancelledError], which is no [Exception], the
    handler is passed by and the fault goes on to the caller.  On each
    of these paths [observe] is called exactly once, after all the
    attempt did, with the type and the provider; [cached] is that of a
    returned response of the attempt and false otherwise; [error] is
    true exactly when a response carrying a message is returned, so
    true on the "Error searching" path and false when the fault goes on
    to the caller.  [search] is that statement around [_search], which
    calls [observe] nowhere itself. *)
Theorem search_catches_and_records (env : Env) (type : string) (G : Z)
    (debrid : DebridService.t) (imdb_id : string)
    (season_episode : list Z) (indexers : list string)
    (attempt : M StreamResponse) (h : list Event) :
  exemplar_fits imdb_id season_episode = true ->
  (let '(r, h1) := attempt h in
   let o :=
     {| o_type := type;
        o_debrid_service := DebridService.id debrid;
        o_cached := match r with
                    | Ok resp => cached resp
                    | Raise _ => false
                    end;
        o_error := match r with
                   | Ok resp =>
                       match error resp with
                       | Some (String _ _) => true
                       | _ => false
                       end
                   | Raise e => is_Exception e
                   end;
        o_imdb := imdb_id;
        o_season_episode := Str.join "," (map Str.of_Z season_episode) |} in
   search_guard attempt type debrid imdb_id season_episode h
   = (match r with
      | Ok resp => Ok resp
      | Raise e =>
          if is_Exception e
          then Ok {| streams := []; error := Some "Error searching";
                     cached := false |}
          else Raise e
      end,
      h1 ++ [EvObserve o])
   /\ observations (h1 ++ [EvObserve o]) = observations h1 ++ [o])
  /\ search env type G debrid imdb_id season_episode indexers h
     = search_guard
         (_search env type G debrid imdb_id season_episode indexers)
         type debrid imdb_id season_episode h
  /\ observations
       (snd (_search env type G debrid imdb_id season_episode indexers h))
     = observations h.
Proof.
  intros Hfits.
  split; [|split; [reflexivity | apply _search_observes_nothing]].
  pose proof (guard_outcome attempt type debrid imdb_id season_episode h)
    as Hg.
  destruct (attempt h) as [r h1].
  rewrite Hfits in Hg. rewrite Hg.
  split; [|apply observations_snoc].
  destruct r as [resp|e]; [|destruct (is_Exception e)]; reflexivity.
Qed.

(** Scenario D at work: the resolver fails after yielding two of five
    requested links. *)
Lemma search_catches_and_records_witness :
  let debrid :=
    Sample.provider {| yielded := [Sample.a1080; Sample.d720];
                       ending := Some (OtherException "connection reset") |} in
  let attempt :=
    _search (Sample.env (Some Sample.movie)) "movie" 5 debrid "tt1234567"
      [] [] in
  search_guard attempt "movie" debrid "tt1234567" [] []
  = (Ok search_error,
     snd (attempt [])
     ++ [EvObserve {| o_type := "movie"; o_debrid_service := "sample";
                      o_cached := false; o_error := true;
                      o_imdb := "tt1234567"; o_season_episode := "" |}]).
Proof.
  intros debrid attempt.
  exact (proj1 (proj1 (search_catches_and_records
                         (Sample.env (Some Sample.movie)) "movie" 5 debrid
                         "tt1234567" [] [] attempt [] eq_refl))).
Defined.

(** C5 as stated fails.  The resolver's stream is cancelled after two
    links: [search] does not return the "Error searching" response but
    lets the fault go on to its caller, and the duration is recorded
    with [error] false. *)
Lemma cancellation_passes_search_counterexample :
  let debrid :=
    Sample.provider {| yielded := [Sample.a1080; Sample.d720];
                       ending := Some CancelledError |} in
  let '(r, h) :=
    search (Sample.env (Some Sample.movie)) "movie" 5 debrid "tt1234567"
      [] [] [] in
  r <> Ok search_error /\
  r = Raise CancelledError /\
  observations h =
    [ {| o_type := "movie"; o_debrid_service := "sample";
         o_cached := false; o_error := false;
         o_imdb := "tt1234567"; o_season_episode := "" |} ].
Proof. vm_compute. repeat split. discriminate. Qed.

(** A fault of the last stage: an attempt that does all [_search] does
    and then fails while formatting, as [float(link.size)] does for a
    size beyond the range of a float. *)
Example formatting_fault_is_caught :
  let debrid := Sample.provider (Sample.ends [Sample.a1080; Sample.d720]) in
  let attempt :=
    _search (Sample.env (Some Sample.movie)) "movie" 5 debrid "tt1234567"
      [] [] ;;;
    raise (OtherException "int too large to convert to float") in
  let '(r, h) := search_guard attempt "movie" debrid "tt1234567" [] [] in
  r = Ok search_error /\
  observations h =
    [ {| o_type := "movie"; o_debrid_service := "sample";
         o_cached := false; o_error := true;
         o_imdb := "tt1234567"; o_season_episode := "" |} ].
Proof. vm_compute. split; reflexivity. Qed.

(** The call of [observe] in the [finally] block is not guarded.  With
    an exemplar beyond the histogram's limit it raises, and what it
    raises replaces what [search] was about to return: here the
    "Error searching" response for a resolver that failed mid-stream. *)
Example long_exemplar_fault_escapes :
  let debrid :=
    Sample.provider {| yielded := [Sample.a1080; Sample.d720];
                       ending := Some (OtherException "connection reset") |} in
  let '(r, h) :=
    search (Sample.env (Some Sample.movie)) "movie" 5 debrid Sample.long_id
      [] [] [] in
  Str.len Sample.long_id = 111%nat /\
  exemplar_fits Sample.long_id [] = false /\
  fst (_search (Sample.env (Some Sample.movie)) "movie" 5 debrid
         Sample.long_id [] [] [])
  = Raise (OtherException "connection reset") /\
  r = Raise exemplar_error /\
  observations h =
    [ {| o_type := "movie"; o_debrid_service := "sample";
         o_cached := false; o_error := true;
         o_imdb := Sample.long_id; o_season_episode := "" |} ].
Proof. vm_compute. repeat split. Qed.

(** With an identifier one character shorter the response is
    returned. *)
Example exemplar_at_the_limit :
  let id := ("t" ++ String.concat "" (repeat "012345678" 11)
             ++ "0123456789")%string in
  Str.len id = 110%nat /\
  exemplar_fits id [] = true /\
  fst (search (Sample.env None) "movie" 4
         (Sample.provider (Sample.ends [Sample.a1080])) id [] [] [])
  = Ok media_info_error.
Proof. vm_compute. repeat split. Qed.

(** A fault of a stage after metadata lookup makes [_search] raise:
    the indexer search, the call of the resolver, and the resolver's
    stream when it fails before the cap is reached. *)
Lemma later_faults_reach_search (env : Env) (type : string) (G : Z)
    (debrid : DebridService.t) (imdb_id : string)
    (season_episode : list Z) (indexers : list string)
    (h : list Event) (fresh : bool) (info : MediaInfo.t) (year : Z)
    (e : exc) :
  db_unique_add env "stream_request"
    (imdb_id ++ ":" ++ repr_ints season_episode) = Ok fresh ->
  get_media_info env imdb_id type = Ok (Some info) ->
  release_year info = Ok year ->
  let q := build_query type imdb_id info year season_episode in
  let ixs := usable_indexers env type indexers in
  (jackett_search_indexers env q ixs = Raise e \/
   exists torrents,
     jackett_search_indexers env q ixs = Ok torrents /\
     (DebridService.get_stream_links debrid
        (stream_links_kwargs torrents season_episode G) = Raise e \/
      exists links st,
        DebridService.get_stream_links debrid
          (stream_links_kwargs torrents season_episode G) = Ok links /\
        aggregate (Torrent_parse_title env) G links = (st, Faulted e))) ->
  fst (_search env type G debrid imdb_id season_episode indexers h)
  = Raise e.
Proof.
  intros Hadd Hinfo Hyear q ixs Hfault.
  unfold _search, bind, call, lift, ret, emit, raise.
  rewrite Hadd, Hinfo.
  destruct fresh; simpl; rewrite Hyear; fold q ixs;
    (destruct Hfault as [-> | (torrents & -> & [-> | (links & st & -> & ->)])];
     reflexivity).
Qed.

(** Scenario D: the resolver fails after yielding two of five requested
    links. *)
Example resolver_fault_mid_stream :
  let debrid :=
    Sample.provider {| yielded := [Sample.a1080; Sample.d720];
                       ending := Some (OtherException "connection reset") |} in
  let '(r, h) :=
    search (Sample.env (Some Sample.movie)) "movie" 5 debrid "tt1234567"
      [] [] [] in
  r = Ok search_error /\
  observations h =
    [ {| o_type := "movie"; o_debrid_service := "sample";
         o_cached := false; o_error := true;
         o_imdb := "tt1234567"; o_season_episode := "" |} ].
Proof. vm_compute. split; reflexivity. Qed.

(** ** The OffCloud provider *)

(** The call of lines 70-75 does not bind to OffCloud's parameters:
    [season_episode] names none of them. *)
Lemma offcloud_call_raises (api : OffCloud.Api) (torrents : list string)
    (season_episode : list Z) (G : Z) :
  DebridService.get_stream_links (OffCloud.service api)
    (stream_links_kwargs torrents season_episode G)
  = Raise (TypeError "got an unexpected keyword argument").
Proof. reflexivity. Qed.

(** With OffCloud, [_search] raises whenever metadata lookup does not
    come back empty; what it raises is an [Exception] unless an earlier
    stage was cancelled. *)
Lemma offcloud_search_raises (env : Env) (api : OffCloud.Api)
    (type : string) (G : Z) (imdb_id : string) (season_episode : list Z)
    (indexers : list string) (h : list Event) :
  get_media_info env imdb_id type <> Ok None ->
  uncancelled
    (db_unique_add env "stream_request"
       (imdb_id ++ ":" ++ repr_ints season_episode)) ->
  uncancelled (get_media_info env imdb_id type) ->
  (forall q ixs, uncancelled (jackett_search_indexers env q ixs)) ->
  exists e,
    fst (_search env type G (OffCloud.service api) imdb_id season_episode
           indexers h) = Raise e
    /\ is_Exception e = true.
Proof.
  intros Hinfo Hadd Hmeta Hjack.
  unfold _search, bind, call, lift, ret, emit, raise.
  destruct (db_unique_add env _ _) as [fresh|e]; [|now exists e].
  destruct fresh; simpl;
    (destruct (get_media_info env imdb_id type) as [[info|]|e];
       [| contradiction | now exists e];
     destruct (release_year info) as [year|e] eqn:Ey;
       [|exists e; split; [reflexivity|];
         unfold release_year, Str.int_of_digits in Ey;
         destruct (Str.digits_prefix _); [|discriminate];
         now injection Ey as <-];
     match goal with
     | |- context [jackett_search_indexers env ?q ?ixs] =>
         specialize (Hjack q ixs);
         destruct (jackett_search_indexers env q ixs) as [torrents|e];
           [|now exists e]
     end;
     eexists; split; reflexivity).
Qed.

(** C9, as the code has it.  A search routed to OffCloud whose metadata
    lookup does not come back empty, in which no earlier stage is
    cancelled and whose exemplar is within the histogram's limit,
    returns the generic error response (no streams, "Error searching"):
    the call of [get_stream_links] passes the keyword [season_episode],
    which OffCloud's definition does not accept, and [search] turns the
    fault into that response. *)
Theorem offcloud_search_fails (env : Env) (api : OffCloud.Api)
    (type : string) (G : Z) (imdb_id : string) (season_episode : list Z)
    (indexers : list string) (h : list Event) :
  get_media_info env imdb_id type <> Ok None ->
  uncancelled
    (db_unique_add env "stream_request"
       (imdb_id ++ ":" ++ repr_ints season_episode)) ->
  uncancelled (get_media_info env imdb_id type) ->
  (forall q ixs, uncancelled (jackett_search_indexers env q ixs)) ->
  exemplar_fits imdb_id season_episode = true ->
  fst (search env type G (OffCloud.service api) imdb_id season_episode
         indexers h)
  = Ok {| streams := []; error := Some "Error searching"; cached := false |}
  /\ forall torrents,
       DebridService.get_stream_links (OffCloud.service api)
         (stream_links_kwargs torrents season_episode G)
       = Raise (TypeError "got an unexpected keyword argument").
Proof.
  intros Hinfo Hadd Hmeta Hjack Hfits.
  split; [|intros; apply offcloud_call_raises].
  destruct (offcloud_search_raises env api type G imdb_id season_episode
              indexers h Hinfo Hadd Hmeta Hjack) as (e & He & Hexc).
  rewrite search_outcome, Hfits, He, Hexc. reflexivity.
Qed.

Lemma offcloud_search_fails_witness :
  fst (search (Sample.env (Some Sample.movie)) "movie" 4
         (OffCloud.service Sample.api) "tt1234567" [] [] [])
  = Ok {| streams := []; error := Some "Error searching"; cached := false |}.
Proof.
  apply (offcloud_search_fails (Sample.env (Some Sample.movie)) Sample.api
           "movie" 4 "tt1234567" [] [] []).
  - simpl. discriminate.
  - exact I.
  - exact I.
  - intros q ixs. exact I.
  - reflexivity.
Defined.

(** C9 as stated fails: a search routed to OffCloud for a title whose
    metadata lookup finds nothing does not return "Error searching". *)
Lemma offcloud_unknown_title_counterexample :
  fst (search (Sample.env None) "movie" 4 (OffCloud.service Sample.api)
         "tt0000000" [] [] [])
  <> Ok {| streams := []; error := Some "Error searching"; cached := false |}.
Proof. vm_compute. discriminate. Qed.

(** Every link OffCloud's generator yields was built by
    [get_stream_link]. *)
Lemma offcloud_link_size (api : OffCloud.Api) (info_hash : string)
    (season episode : Z) (link : StreamLink) :
  OffCloud.get_stream_link api info_hash season episode = Ok (Some link) ->
  size link = 0.
Proof.
  unfold OffCloud.get_stream_link.
  repeat match goal with
         | |- context [match ?x with _ => _ end] => destruct x
         end; intros [= <-] || discriminate. 
  all: reflexivity.
Qed.

(** C10. Every link [get_stream_link] builds has size 0, whatever the
    file, so the size line of its [Stream] title is the rendering of
    zero bytes. *)
Theorem offcloud_links_render_zero_bytes (api : OffCloud.Api)
    (info_hash : string) (season episode : Z) (link : StreamLink)
    (parse_title : string -> Torrent) (human_bytes : Z -> string)
    (short_name : string) :
  OffCloud.get_stream_link api info_hash season episode = Ok (Some link) ->
  size link = 0 /\
  size_line human_bytes link = ("💾" ++ human_bytes 0)%string /\
  Stream.title (format_link parse_title human_bytes short_name link)
  = Str.join Str.newline
      [ name link;
        ("📺" ++ resolution (parse_title (name link)))%string;
        ("🔊" ++ audio (parse_title (name link)))%string;
        ("💾" ++ human_bytes 0)%string ].
Proof.
  intros H. apply offcloud_link_size in H.
  unfold format_link, size_line. simpl. rewrite H. repeat split.
Qed.

Lemma offcloud_links_render_zero_bytes_witness :
  let link :=
    {| url := ("https://fr-4.offcloud.com/cloud/download/r1/"
               ++ "Movie.2020.1080p.x264-GRP.mkv")%string;
       name := "Movie.2020.1080p.x264-GRP.mkv";
       size := 0 |} in
  size link = 0 /\
  size_line Sample.show_bytes link = ("💾" ++ "0 B")%string /\
  Stream.title (format_link Sample.parse Sample.show_bytes "offcloud" link)
  = Str.join Str.newline
      [ name link;
        ("📺" ++ resolution (Sample.parse (name link)))%string;
        ("🔊" ++ audio (Sample.parse (name link)))%string;
        ("💾" ++ Sample.show_bytes 0)%string ].
Proof.
  intros link.
  apply (offcloud_links_render_zero_bytes Sample.api "abcdef" 0 0 link
           Sample.parse Sample.show_bytes "offcloud").
  reflexivity.
Defined.

(** The same for every link of a stream OffCloud's generator yields. *)
Lemma offcloud_loop_sizes (api : OffCloud.Api) (stop : bool)
    (G season episode : Z) (items : list string) :
  forall i,
    Forall (fun link => size link = 0)
           (yielded (OffCloud.stream_loop api items i stop G season episode)).
Proof.
  induction items as [|t items IH]; intros i; simpl; [constructor|].
  destruct t as [|c t]; [apply IH|].
  destruct (OffCloud.get_stream_link api (String c t) season episode)
    as [[link|]|e] eqn:E; simpl.
  - apply offcloud_link_size in E.
    destruct ((i + 1 >=? G) || stop); simpl; constructor;
      try exact E; try constructor. apply IH.
  - destruct stop; [constructor | apply IH].
  - constructor.
Qed.

Lemma offcloud_stream_sizes (api : OffCloud.Api) (torrents : list string)
    (stop : bool) (G season episode : Z) :
  Forall (fun link => size link = 0)
         (yielded (OffCloud.get_stream_links api torrents stop G season
                     episode)).
Proof.
  unfold OffCloud.get_stream_links.
  destruct (OffCloud.get_torrent_instant_availability api torrents)
    as [[[|t items]|]|e]; simpl; try constructor.
  apply (offcloud_loop_sizes api stop G season episode (t :: items)).
Qed.

(** * Further properties *)

(** ** The aggregation loop, continued *)

(** X1. When the loop has ended, the dictionary of buckets has one key
    per resolution label among the links pulled, in the order in which
    the labels first arrived, and the bucket of each label holds, in
    arrival order, the first [ceil(G/2)] pulled links of that label.
    A label whose links were all discarded still has its (empty)
    bucket. *)
Theorem buckets_hold_first_arrivals (parse_title : string -> Torrent)
    (G : Z) (s : LinkStream) :
  let st := fst (aggregate parse_title G s) in
  let got := pulled parse_title G s in
  DefaultDict.keys (resolution_links st)
  = first_occurrences (map (resolution_of parse_title) got)
  /\ (forall k,
        bucket k st
        = firstn (bucket_cap G) (filter (has_resolution parse_title k) got))
  /\ total_processed st = Z.of_nat (length got).
Proof.
  intros st got. subst st got.
  destruct (aggregate parse_title G s) as [st ex] eqn:E.
  destruct (aggregate_pulled _ _ _ _ _ E) as (HI & _).
  simpl. split; [|split; [apply HI | apply HI]].
  destruct (async_for_keys parse_title G (yielded s) (ending s) agg_init)
    as (n & Hn & Hk).
  fold (aggregate parse_title G s) in Hn, Hk. rewrite E in Hn, Hk.
  simpl in Hn, Hk.
  assert (Hp : pulled parse_title G s = firstn n (yielded s)).
  { unfold pulled. rewrite E. simpl. rewrite Hn, Nat2Z.id.
    apply firstn_length_firstn. }
  rewrite Hp. exact Hk.
Qed.

(** X2. How the loop ends.  It leaves by [break] only with a positive
    cap and with [total_links] exactly equal to it.  Otherwise it has
    pulled the whole stream and ends the way the stream ends, normally
    or with the stream's fault, holding fewer links than the cap (or
    none). *)
Theorem loop_exit_classified (parse_title : string -> Torrent) (G : Z)
    (s : LinkStream) :
  let '(st, ex) := aggregate parse_title G s in
  match ex with
  | Broke => 1 <= G /\ total_links st = G
  | Exhausted =>
      ending s = None /\ pulled parse_title G s = yielded s /\
      (total_links st = 0 \/ total_links st < G)
  | Faulted e =>
      ending s = Some e /\ pulled parse_title G s = yielded s /\
      (total_links st = 0 \/ total_links st < G)
  end.
Proof.
  pose proof (exit_follows_ending parse_title G (yielded s) (ending s)
                agg_init) as Hend.
  fold (aggregate parse_title G s) in Hend.
  destruct (aggregate parse_title G s) as [st ex] eqn:E.
  destruct (aggregate_pulled _ _ _ _ _ E) as (_ & Hle & Hex).
  simpl in Hend. destruct ex.
  - destruct Hex as [Hp HO]. now repeat split.
  - lia.
  - destruct Hex as [Hp HO]. now repeat split.
Qed.

(** X3. Once the cap is reached, what the resolver would have produced
    next plays no part: if the loop leaves by [break] on a stream, it
    ends in the same state on any stream that continues it, whatever
    comes after and however that stream ends, a fault included. *)
Theorem break_ignores_remainder (parse_title : string -> Torrent) (G : Z)
    (pre rest : list StreamLink) (fin fin' : option exc) (st : AggState) :
  aggregate parse_title G {| yielded := pre; ending := fin |} = (st, Broke) ->
  aggregate parse_title G {| yielded := pre ++ rest; ending := fin' |}
  = (st, Broke).
Proof.
  unfold aggregate; simpl. apply broke_ignores_rest.
Qed.

Lemma break_ignores_remainder_witness :
  aggregate Sample.parse 2
    {| yielded := [Sample.a1080; Sample.d720] ++ [Sample.e720];
       ending := Some (OtherException "connection reset") |}
  = (fst (aggregate Sample.parse 2
            (Sample.ends [Sample.a1080; Sample.d720])), Broke).
Proof.
  apply (break_ignores_remainder Sample.parse 2
           [Sample.a1080; Sample.d720] [Sample.e720] None).
  reflexivity.
Defined.

(** The links held are those of the buckets; when every link pulled has
    one label, they are the bucket of that label. *)
Lemma accepted_single_label (parse_title : string -> Torrent) (G : Z)
    (st : AggState) (seen : list StreamLink) (r : string) :
  LoopInv parse_title G st seen ->
  Forall (fun x => resolution_of parse_title x = r) seen ->
  accepted st = firstn (bucket_cap G) seen.
Proof.
  intros HI Hall.
  assert (Hmem : forall k v x, In (k, v) (resolution_links st) -> In x v ->
                               resolution_of parse_title x = k)
    by apply (bucket_members parse_title G st seen HI).
  assert (Hseen : filter (has_resolution parse_title r) seen = seen).
  { apply forallb_filter_id. apply forallb_forall. intros x Hx.
    rewrite Forall_forall in Hall. unfold has_resolution.
    rewrite (Hall x Hx). apply String.eqb_refl. }
  rewrite <- Hseen at 1. rewrite <- (inv_buckets _ _ _ _ HI r).
  assert (Hin : forall x, In x (accepted st) ->
                          resolution_of parse_title x = r).
  { intros x Hx. unfold accepted, DefaultDict.chain_values in Hx.
    apply in_concat in Hx. destruct Hx as (v & Hv & Hxv).
    apply in_map_iff in Hv. destruct Hv as ([k v'] & <- & Hkv). simpl in Hxv.
    pose proof (Hmem k v' x Hkv Hxv) as Hk.
    pose proof (inv_buckets _ _ _ _ HI k) as Hb.
    unfold bucket, DefaultDict.get in Hb.
    rewrite (DefaultDictFacts.lookup_in k v' _ (inv_keys _ _ _ _ HI) Hkv)
      in Hb.
    rewrite Hb in Hxv. apply In_firstn in Hxv. apply filter_In in Hxv.
    rewrite Forall_forall in Hall. apply Hall. apply Hxv. }
  assert (Hf : filter (has_resolution parse_title r) (accepted st)
               = accepted st).
  { apply forallb_filter_id. apply forallb_forall. intros x Hx.
    unfold has_resolution. rewrite (Hin x Hx). apply String.eqb_refl. }
  rewrite <- Hf. unfold accepted, bucket.
  apply DefaultDictFacts.filter_chain with
    (p := has_resolution parse_title); [apply HI|].
  intros k' v x Hkv Hx. unfold has_resolution.
  now rewrite (Hmem k' v x Hkv Hx).
Qed.

(** X4. A stream whose links all have the same resolution can never
    fill a cap of 2 or more: the loop keeps the first [ceil(G/2)] links,
    never leaves by [break], and pulls the stream to its end. *)
Theorem single_resolution_never_fills (parse_title : string -> Torrent)
    (G : Z) (links : list StreamLink) (fin : option exc) (r : string) :
  2 <= G ->
  Forall (fun x => resolution_of parse_title x = r) links ->
  let '(st, ex) :=
    aggregate parse_title G {| yielded := links; ending := fin |} in
  accepted st = firstn (bucket_cap G) links /\
  total_processed st = Z.of_nat (length links) /\
  ex <> Broke.
Proof.
  intros HG Hall.
  destruct (aggregate parse_title G {| yielded := links; ending := fin |})
    as [st ex] eqn:E.
  destruct (aggregate_pulled _ _ _ _ _ E) as (HI & Hle & Hex).
  simpl in *.
  assert (Hsub : Forall (fun x => resolution_of parse_title x = r)
                        (pulled parse_title G
                           {| yielded := links; ending := fin |})).
  { unfold pulled. simpl. rewrite Forall_forall in *. intros x Hx.
    apply Hall. eapply In_firstn. exact Hx. }
  pose proof (accepted_single_label _ _ _ _ r HI Hsub) as Hacc.
  assert (Hcap : Z.of_nat (bucket_cap G) < G).
  { unfold bucket_cap, ceil_half. rewrite Z2Nat.id by (apply Z.div_pos; lia).
    apply Z.div_lt_upper_bound; lia. }
  assert (Hnb : ex <> Broke).
  { intros ->. pose proof (inv_total _ _ _ _ HI) as Ht.
    rewrite Hacc, length_firstn in Ht. lia. }
  destruct ex; try contradiction; destruct Hex as [Hp _];
    rewrite Hp in *; (split; [exact Hacc|]); (split; [apply HI | exact Hnb]).
Qed.

Lemma single_resolution_never_fills_witness :
  let '(st, ex) :=
    aggregate Sample.parse 4
      (Sample.ends [Sample.a1080; Sample.b1080; Sample.c1080]) in
  accepted st = firstn (bucket_cap 4)
                  [Sample.a1080; Sample.b1080; Sample.c1080] /\
  total_processed st = Z.of_nat 3 /\
  ex <> Broke.
Proof.
  apply (single_resolution_never_fills Sample.parse 4
           [Sample.a1080; Sample.b1080; Sample.c1080] None "1080p").
  - lia.
  - repeat constructor.
Defined.

(** X5. The loop holds only links the resolver yielded, never more of
    them than it pulled, and it never pulls more than the stream
    yields. *)
Theorem accepted_come_from_stream (parse_title : string -> Torrent)
    (G : Z) (s : LinkStream) :
  let st := fst (aggregate parse_title G s) in
  incl (accepted st) (yielded s) /\
  0 <= total_links st <= total_processed st /\
  total_processed st <= Z.of_nat (length (yielded s)).
Proof.
  intros st. subst st.
  pose proof (counters_ordered parse_title G (yielded s) (ending s)
                agg_init) as Hord.
  fold (aggregate parse_title G s) in Hord.
  destruct (aggregate parse_title G s) as [st ex] eqn:E.
  destruct (aggregate_pulled _ _ _ _ _ E) as (HI & _).
  simpl in *. split; [|split].
  - intros x Hx. unfold accepted, DefaultDict.chain_values in Hx.
    apply in_concat in Hx. destruct Hx as (v & Hv & Hxv).
    apply in_map_iff in Hv. destruct Hv as ([k v'] & <- & Hkv). simpl in Hxv.
    pose proof (inv_buckets _ _ _ _ HI k) as Hb.
    unfold bucket, DefaultDict.get in Hb.
    rewrite (DefaultDictFacts.lookup_in k v' _ (inv_keys _ _ _ _ HI) Hkv)
      in Hb.
    rewrite Hb in Hxv. apply In_firstn in Hxv. apply filter_In in Hxv.
    destruct Hxv as [Hxv _]. unfold pulled in Hxv.
    eapply In_firstn. exact Hxv.
  - split; [rewrite (inv_total _ _ _ _ HI); lia|].
    apply Hord. simpl. lia.
  - rewrite (inv_processed _ _ _ _ HI). unfold pulled.
    rewrite length_firstn. lia.
Qed.

(** ** Ranking, continued *)

Lemma sorted_of_descending (rank_quality : string -> Z)
    (l : list StreamLink) :
  descending rank_quality l -> sorted_reverse rank_quality l = l.
Proof.
  induction l as [|x l IH]; simpl; [reflexivity|].
  intros [Hall Hd]. rewrite (IH Hd).
  destruct l as [|y l]; simpl; [reflexivity|].
  inversion Hall as [|? ? Hy _]; subst.
  destruct (rank_key rank_quality x <? rank_key rank_quality y) eqn:E;
    [|reflexivity].
  apply Z.ltb_lt in E. lia.
Qed.

(** X6. Ranking a sequence that is already ranked leaves it as it is;
    in particular ranking twice is ranking once. *)
Theorem ranking_idempotent (rank_quality : string -> Z)
    (l : list StreamLink) :
  sorted_reverse rank_quality (sorted_reverse rank_quality l)
  = sorted_reverse rank_quality l.
Proof.
  apply sorted_of_descending, sorted_descending.
Qed.

(** ** The response as a whole *)

(** X7. Whatever the collaborators do, a response [search] returns
    never has more streams than [max_results] (none at all when
    [max_results] is zero or less).  [search] returns a response unless
    one of two things happens: the exemplar is beyond the histogram's
    limit, and then what is raised is the fault of [observe]; or
    [_search] raised a fault that is no [Exception], and then that
    fault goes on to the caller. *)
Theorem response_within_max_results (env : Env) (type : string) (G : Z)
    (debrid : DebridService.t) (imdb_id : string)
    (season_episode : list Z) (indexers : list string) (h : list Event) :
  match fst (search env type G debrid imdb_id season_episode indexers h)
  with
  | Ok resp => Z.of_nat (length (streams resp)) <= Z.max 0 G
  | Raise e =>
      (exemplar_fits imdb_id season_episode = false /\ e = exemplar_error)
      \/ (exemplar_fits imdb_id season_episode = true /\
          is_Exception e = false /\
          fst (_search env type G debrid imdb_id season_episode indexers h)
          = Raise e)
  end.
Proof.
  rewrite search_outcome.
  destruct (exemplar_fits imdb_id season_episode); [|now left].
  destruct (_search env type G debrid imdb_id season_episode indexers h)
    as [r h1] eqn:Hr.
  simpl. destruct r as [resp|e].
  2:{ destruct (is_Exception e) eqn:He; [simpl; lia | now right]. }
  destruct (error resp) as [msg|] eqn:Herr.
  - (* the only response with a message is the one for missing metadata *)
    assert (Hempty : streams resp = []).
    { run_search Hr; try discriminate; injection Hr as <- _;
        try discriminate Herr; reflexivity. }
    rewrite Hempty. simpl. lia.
  - assert (Hfst : fst (_search env type G debrid imdb_id season_episode
                          indexers h) = Ok resp) by now rewrite Hr.
    destruct (_search_success _ _ _ _ _ _ _ _ _ Hfst Herr)
      as (torrents & links & st & ex & _ & Ha & ->).
    destruct (aggregate_spec _ _ _ _ _ Ha) as (n & HI & Hle & _).
    unfold respond; simpl. rewrite format_links_map, length_map.
    unfold rank.
    rewrite (Permutation_length
               (sorted_perm (human_rank_quality env) (accepted st))).
    rewrite <- (inv_total _ _ _ _ HI). exact Hle.
Qed.

(** ** The name label of a stream (api.py, lines 112-119) *)

Lemma str_app_assoc (a b c : string) :
  ((a ++ b) ++ c)%string = (a ++ (b ++ c))%string.
Proof.
  induction a as [|x a IH]; simpl; [reflexivity | now rewrite IH].
Qed.

(** [rstrip] stops at the last character that is not white space. *)
Lemma rstrip_keeps (u : string) (c : ascii) (t : string) :
  Str.is_space c = false ->
  Str.rstrip (u ++ String c t) = (u ++ String c (Str.rstrip t))%string.
Proof.
  intros Hc. induction u as [|a u IH]; simpl.
  - rewrite Hc. now destruct (Str.rstrip t).
  - rewrite IH. now destruct u.
Qed.

Lemma strip_tagged (a c : ascii) (u t : string) :
  Str.is_space a = false -> Str.is_space c = false ->
  Str.strip (String a u ++ String c t)
  = (String a u ++ String c (Str.rstrip t))%string.
Proof.
  intros Ha Hc. unfold Str.strip.
  assert (Hl : Str.lstrip (String a u ++ String c t)
               = (String a u ++ String c t)%string).
  { cbn [append Str.lstrip]. now rewrite Ha. }
  rewrite Hl. now apply rstrip_keeps.
Qed.

(** X8. The name label of every stream starts with the provider tag
    and the brand, "[<short name>+] Annatar": the trim never reaches
    them.  When the title has neither a resolution nor audio channels,
    the label is the tag and the brand alone, the separating blanks
    trimmed away. *)
Theorem stream_name_label (parse_title : string -> Torrent)
    (human_bytes : Z -> string) (short_name : string) (link : StreamLink) :
  let meta := parse_title (name link) in
  (exists rest,
      Stream.name (format_link parse_title human_bytes short_name link)
      = ("[" ++ short_name ++ "+] Annatar" ++ rest)%string)
  /\ (resolution meta = "" -> audio_channels meta = "" ->
      Stream.name (format_link parse_title human_bytes short_name link)
      = ("[" ++ short_name ++ "+] Annatar")%string).
Proof.
  intros meta.
  set (t := (" " ++ resolution meta ++ " " ++ audio_channels meta)%string).
  assert (Hjoin :
    Str.join " "
      [ ("[" ++ short_name ++ "+]")%string; "Annatar";
        resolution meta; audio_channels meta ]
    = (String "[" (short_name ++ "+] Annata") ++ String "r" t)%string).
  { unfold Str.join, t. cbn [String.concat append].
    rewrite !str_app_assoc. reflexivity. }
  assert (Hname :
    Stream.name (format_link parse_title human_bytes short_name link)
    = ("[" ++ short_name ++ "+] Annatar" ++ Str.rstrip t)%string).
  { unfold format_link. cbn [Stream.name]. fold meta.
    rewrite Hjoin, strip_tagged by reflexivity.
    cbn [append]. rewrite !str_app_assoc. reflexivity. }
  split; [now exists (Str.rstrip t)|].
  intros Hr Ha. rewrite Hname. unfold t. rewrite Hr, Ha. reflexivity.
Qed.

Lemma stream_name_label_witness :
  let parse := fun _ : string =>
    {| resolution := ""; audio := ""; audio_channels := "" |} in
  Stream.name (format_link parse Sample.show_bytes "RD" Sample.hcam)
  = "[RD+] Annatar".
Proof.
  intros parse.
  apply (stream_name_label parse Sample.show_bytes "RD" Sample.hcam);
    reflexivity.
Defined.

(** ** The release year (api.py, line 53) *)

Lemma digits_value_acc (d : Decimal.uint) :
  forall acc,
    Str.digits_value (Z.pos acc) (NilEmpty.string_of_uint d)
    = Z.pos (Pos.of_uint_acc d acc).
Proof.
  induction d; intros acc;
    cbn [NilEmpty.string_of_uint Str.digits_value Pos.of_uint_acc];
    try reflexivity;
    rewrite <- IHd; f_equal;
    match goal with
    | |- context [Z.of_nat (nat_of_ascii ?c)] =>
        let v := eval vm_compute in (Z.of_nat (nat_of_ascii c)) in
        change (Z.of_nat (nat_of_ascii c)) with v
    end; lia.
Qed.

Lemma digits_value_uint (d : Decimal.uint) :
  Str.digits_value 0 (NilEmpty.string_of_uint d) = Z.of_uint d.
Proof.
  unfold Z.of_uint.
  induction d; simpl; try reflexivity; try exact IHd;
    apply (digits_value_acc d).
Qed.

Lemma all_digits_uint (d : Decimal.uint) :
  all_digits (NilEmpty.string_of_uint d) = true.
Proof.
  unfold all_digits. induction d; simpl; try reflexivity; exact IHd.
Qed.

(** The text of a natural number, read back. *)
Lemma int_of_str (n : Z) :
  0 <= n ->
  all_digits (Str.of_Z n) = true /\
  Str.int_of_digits (Str.of_Z n) = Ok n.
Proof.
  intros Hn. unfold Str.of_Z.
  destruct n as [|p|p]; [now split | | lia].
  pose proof (DecimalZ.of_to (Z.pos p)) as Hround.
  change (Z.to_int (Z.pos p)) with (Decimal.Pos (Pos.to_uint p)) in *.
  cbn [NilZero.string_of_int Z.of_int] in *.
  set (u := Pos.to_uint p) in *.
  assert (Hs : NilZero.string_of_uint u = NilEmpty.string_of_uint u
               /\ NilEmpty.string_of_uint u <> ""%string).
  { destruct u; try (split; [reflexivity | discriminate]).
    discriminate Hround. }
  destruct Hs as [-> Hne]. split; [apply all_digits_uint|].
  unfold Str.int_of_digits.
  destruct (NilEmpty.string_of_uint u) eqn:E; [contradiction|].
  rewrite <- E, digits_value_uint, Hround. reflexivity.
Qed.

Lemma digits_prefix_app (d suffix : string) :
  all_digits d = true ->
  match suffix with
  | EmptyString => True
  | String c _ => Str.is_digit c = false
  end ->
  Str.digits_prefix (d ++ suffix) = d.
Proof.
  unfold all_digits. intros Hd Hs.
  induction d as [|a d IH]; simpl in *.
  - destruct suffix as [|c rest]; simpl; [reflexivity | now rewrite Hs].
  - apply andb_prop in Hd. destruct Hd as [Ha Hd]. rewrite Ha.
    now rewrite (IH Hd).
Qed.

(** X9. The year of the query is the number whose decimal numeral
    opens [releaseInfo]: whatever follows the numeral, from the first
    character that is not a digit on, is ignored. *)
Theorem release_year_reads_numeral (info : MediaInfo.t) (n : Z)
    (suffix : string) :
  0 <= n ->
  MediaInfo.releaseInfo info = Some (Str.of_Z n ++ suffix)%string ->
  match suffix with
  | EmptyString => True
  | String c _ => plain_non_digit c
  end ->
  release_year info = Ok n.
Proof.
  intros Hn Hinfo Hs. unfold release_year. rewrite Hinfo.
  destruct (int_of_str n Hn) as [Hd Hv].
  rewrite (digits_prefix_app _ _ Hd); [exact Hv|].
  destruct suffix; [exact I | apply Hs].
Qed.

Lemma release_year_reads_numeral_witness :
  release_year {| MediaInfo.name := "Show";
                  MediaInfo.releaseInfo := Some "2019-2023" |} = Ok 2019.
Proof.
  apply (release_year_reads_numeral _ 2019 "-2023"); [lia | reflexivity |].
  split; [vm_compute; lia | reflexivity].
Defined.

(** X10. Metadata whose [releaseInfo] is missing, empty or starts with
    a character that is not a digit stops the request after the
    lookup: [_search] raises the [ValueError] of [int("")] and no
    indexer is searched.  [search] answers "Error searching" when the
    exemplar is within the histogram's limit, and raises the fault of
    [observe] when it is not. *)
Theorem yearless_metadata_fails (env : Env) (type : string) (G : Z)
    (debrid : DebridService.t) (imdb_id : string)
    (season_episode : list Z) (indexers : list string)
    (h : list Event) (fresh : bool) (info : MediaInfo.t) :
  let key := (imdb_id ++ ":" ++ repr_ints season_episode)%string in
  db_unique_add env "stream_request" key = Ok fresh ->
  get_media_info env imdb_id type = Ok (Some info) ->
  match MediaInfo.releaseInfo info with
  | Some (String c _) => plain_non_digit c
  | _ => True
  end ->
  _search env type G debrid imdb_id season_episode indexers h
  = (Raise (ValueError "invalid literal for int() with base 10"),
     h ++ EvUniqueAdd "stream_request" key
       :: (if fresh then [EvUniqueSearchesInc] else [])
       ++ [EvGetMediaInfo imdb_id type])
  /\ fst (search env type G debrid imdb_id season_episode indexers h)
     = if exemplar_fits imdb_id season_episode
       then Ok search_error
       else Raise exemplar_error.
Proof.
  intros key Hadd Hinfo Hyear.
  assert (Hraise :
    release_year info
    = Raise (ValueError "invalid literal for int() with base 10")).
  { unfold release_year.
    destruct (MediaInfo.releaseInfo info) as [[|c rest]|]; simpl;
      try reflexivity.
    destruct Hyear as [_ Hyear]. now rewrite Hyear. }
  assert (Hs : _search env type G debrid imdb_id season_episode indexers h
    = (Raise (ValueError "invalid literal for int() with base 10"),
       h ++ EvUniqueAdd "stream_request" key
         :: (if fresh then [EvUniqueSearchesInc] else [])
         ++ [EvGetMediaInfo imdb_id type])).
  { unfold _search, bind, call, lift, ret, emit, raise. fold key.
    rewrite Hadd, Hinfo, Hraise.
    destruct fresh; simpl; rewrite <- ?app_assoc; reflexivity. }
  split; [exact Hs|].
  rewrite search_outcome, Hs. reflexivity.
Qed.

Lemma yearless_metadata_fails_witness :
  fst (search
         (Sample.env (Some {| MediaInfo.name := "Movie";
                              MediaInfo.releaseInfo := None |}))
         "movie" 4 (Sample.provider (Sample.ends [Sample.a1080]))
         "tt1234567" [] [] [])
  = Ok search_error.
Proof.
  apply (yearless_metadata_fails
           (Sample.env (Some {| MediaInfo.name := "Movie";
                                MediaInfo.releaseInfo := None |}))
           "movie" 4 (Sample.provider (Sample.ends [Sample.a1080]))
           "tt1234567" [] [] [] true
           {| MediaInfo.name := "Movie"; MediaInfo.releaseInfo := None |});
    reflexivity || exact I.
Defined.

(** ** What a request does to the outside *)

(** A request extends the history it starts from by the events it adds
    to an empty one, and returns what it returns from an empty one. *)
Lemma _search_history (env : Env) (type : string) (G : Z)
    (debrid : DebridService.t) (imdb_id : string)
    (season_episode : list Z) (indexers : list string) (h : list Event) :
  _search env type G debrid imdb_id season_episode indexers h
  = (fst (_search env type G debrid imdb_id season_episode indexers []),
     h ++ request_events env type G debrid imdb_id season_episode indexers).
Proof.
  unfold request_events, _search, bind, call, lift, ret, raise, emit.
  destruct (db_unique_add env _ _) as [[|]|e]; simpl;
    try (destruct (get_media_info env imdb_id type) as [[info|]|e']; simpl;
         try (destruct (release_year info) as [year|e1]; simpl;
              try (destruct (jackett_search_indexers env _ _)
                     as [torrents|e2]; simpl;
                   try (destruct (DebridService.get_stream_links debrid _)
                          as [links|e3]; simpl;
                        try (destruct (aggregate _ G links) as [st []];
                             simpl)))));
    rewrite <- ?app_assoc; reflexivity.
Qed.

(** X11. A request calls each collaborator at most once and in a fixed
    order: the uniqueness set, the counter of unique searches, the
    metadata lookup, the indexer search, the resolver.  The uniqueness
    set is always asked, first.  The counter is incremented exactly when
    the set answered True, and then right after that answer; the
    metadata lookup follows whenever the set answered at all; the
    indexers are searched only for metadata with a release year, and
    the resolver is called only when that search returned.  A stage
    that did not return is the last one called.  The request never
    observes its own duration. *)
Theorem request_calls_in_order (env : Env) (type : string) (G : Z)
    (debrid : DebridService.t) (imdb_id : string)
    (season_episode : list Z) (indexers : list string) :
  let key := (imdb_id ++ ":" ++ repr_ints season_episode)%string in
  let events :=
    request_events env type G debrid imdb_id season_episode indexers in
  events
  = EvUniqueAdd "stream_request" key
    :: match db_unique_add env "stream_request" key with
       | Raise _ => []
       | Ok fresh =>
           (if fresh then [EvUniqueSearchesInc] else [])
           ++ EvGetMediaInfo imdb_id type
           :: match get_media_info env imdb_id type with
              | Ok (Some info) =>
                  match release_year info with
                  | Ok year =>
                      let q :=
                        build_query type imdb_id info year season_episode in
                      let ixs := usable_indexers env type indexers in
                      EvSearchIndexers q ixs
                      :: match jackett_search_indexers env q ixs with
                         | Ok torrents =>
                             [EvGetStreamLinks
                                (stream_links_kwargs torrents
                                   season_episode G)]
                         | Raise _ => []
                         end
                  | Raise _ => []
                  end
              | _ => []
              end
       end
  /\ filter is_counter_inc events
     = match db_unique_add env "stream_request" key with
       | Ok true => [EvUniqueSearchesInc]
       | _ => []
       end
  /\ (exists inc q ixs kwargs rest,
        events ++ rest
        = [EvUniqueAdd "stream_request" key]
          ++ (if inc : bool then [EvUniqueSearchesInc] else [])
          ++ [EvGetMediaInfo imdb_id type;
              EvSearchIndexers q ixs;
              EvGetStreamLinks kwargs])
  /\ observations events = [].
Proof.
  intros key events.
  set (q0 := {| SearchQuery.imdb_id := ""; SearchQuery.name := "";
                SearchQuery.type := ""; SearchQuery.year := 0;
                SearchQuery.season := None; SearchQuery.episode := None |}).
  subst events.
  unfold request_events, _search, bind, call, lift, ret, raise, emit.
  fold key.
  destruct (db_unique_add env "stream_request" key) as [[|]|e] eqn:Eadd;
    simpl.
  3:{ repeat split. exists false, q0, [], []. eexists. reflexivity. }
  all: destruct (get_media_info env imdb_id type) as [[info|]|e']; simpl.
  all: try (destruct (release_year info) as [year|e1]; simpl).
  all: try (destruct (jackett_search_indexers env _ _) as [torrents|e2] eqn:Ej;
            simpl).
  all: try (destruct (DebridService.get_stream_links debrid _)
              as [links|e3]; simpl).
  all: try (destruct (aggregate _ G links) as [st []]; simpl).
  all: repeat split.
  all: match goal with
       | H : _ = Ok true |- _ => exists true
       | H : _ = Ok false |- _ => exists false
       end.
  all: match goal with
       | |- context [EvSearchIndexers ?q ?ixs] => exists q, ixs
       | |- _ => exists q0, []
       end.
  all: match goal with
       | |- context [EvGetStreamLinks ?kw] => exists kw
       | |- _ => exists []
       end.
  all: eexists; reflexivity.
Qed.

(** X12. The indexers handed to the search are exactly the requested
    ones that are known and support the media type, in the order
    requested; an unknown or unsuited indexer is dropped without a
    fault. *)
Theorem usable_indexers_spec (env : Env) (type : string)
    (indexers : list string) :
  (forall ix,
      In ix (usable_indexers env type indexers) <->
      exists i, In i indexers /\ Indexer_find_by_id env i = Some ix
                /\ Indexer_supports env ix type = true)
  /\ (length (usable_indexers env type indexers) <= length indexers)%nat
  /\ forall more,
       usable_indexers env type (indexers ++ more)
       = usable_indexers env type indexers ++ usable_indexers env type more.
Proof.
  unfold usable_indexers. split; [|split].
  - intros ix. rewrite in_flat_map. split.
    + intros (i & Hi & Hix). exists i. split; [exact Hi|].
      destruct (Indexer_find_by_id env i) as [ix'|]; [|contradiction].
      destruct (Indexer_supports env ix' type) eqn:Es; [|contradiction].
      destruct Hix as [<-|[]]. now split.
    + intros (i & Hi & Hf & Hs). exists i. split; [exact Hi|].
      rewrite Hf, Hs. now left.
  - induction indexers as [|i l IH]; simpl; [lia|].
    rewrite length_app.
    destruct (Indexer_find_by_id env i) as [ix|]; simpl; [|lia].
    destruct (Indexer_supports env ix type); simpl; lia.
  - intros more. apply flat_map_app.
Qed.

(** X13. A request whose metadata lookup finds nothing is recorded as
    an error: [search] calls [observe] once, with [error] true and
    [cached] false.  It returns the "Error getting media info" response
    when the exemplar is within the histogram's limit, and raises the
    fault of [observe] when it is not. *)
Theorem missing_metadata_is_recorded_as_error (env : Env) (type : string)
    (G : Z) (debrid : DebridService.t) (imdb_id : string)
    (season_episode : list Z) (indexers : list string)
    (h : list Event) (fresh : bool) :
  let key := (imdb_id ++ ":" ++ repr_ints season_episode)%string in
  db_unique_add env "stream_request" key = Ok fresh ->
  get_media_info env imdb_id type = Ok None ->
  let '(r, h') :=
    search env type G debrid imdb_id season_episode indexers h in
  r = (if exemplar_fits imdb_id season_episode
       then Ok media_info_error
       else Raise exemplar_error) /\
  observations h'
  = observations h
    ++ [ {| o_type := type;
            o_debrid_service := DebridService.id debrid;
            o_cached := false;
            o_error := true;
            o_imdb := imdb_id;
            o_season_episode :=
              Str.join "," (map Str.of_Z season_episode) |} ].
Proof.
  intros key Hadd Hinfo.
  unfold search.
  pose proof (guard_outcome
                (_search env type G debrid imdb_id season_episode indexers)
                type debrid imdb_id season_episode h) as Hg.
  unfold _search, bind, call, lift, ret, emit in Hg |- *. fold key in Hg |- *.
  rewrite Hadd, Hinfo in Hg |- *.
  destruct fresh; simpl in Hg |- *; rewrite Hg;
    (split; [now destruct (exemplar_fits imdb_id season_episode)|]);
    unfold observations; rewrite !flat_map_app; simpl;
    rewrite ?app_nil_r; reflexivity.
Qed.

Lemma missing_metadata_is_recorded_as_error_witness :
  let '(r, h') :=
    search (Sample.env None) "movie" 4
      (Sample.provider (Sample.ends [Sample.a1080])) "tt0000000" [] [] [] in
  r = Ok media_info_error /\
  observations h'
  = observations []
    ++ [ {| o_type := "movie";
            o_debrid_service := "sample";
            o_cached := false;
            o_error := true;
            o_imdb := "tt0000000";
            o_season_episode := Str.join "," (map Str.of_Z []) |} ].
Proof.
  apply (missing_metadata_is_recorded_as_error (Sample.env None) "movie" 4
           (Sample.provider (Sample.ends [Sample.a1080])) "tt0000000"
           [] [] [] true); reflexivity.
Defined.

(** X14. A resolver that yields no link and ends normally gives a
    response without streams and without an error message: having
    nothing to offer is not an error.  That response is returned when
    the exemplar is within the histogram's limit; beyond it [search]
    raises the fault of [observe]. *)
Theorem no_links_is_not_an_error (env : Env) (type : string) (G : Z)
    (debrid : DebridService.t) (imdb_id : string)
    (season_episode : list Z) (indexers : list string)
    (h : list Event) (fresh : bool) (info : MediaInfo.t) (year : Z)
    (torrents : list string) :
  db_unique_add env "stream_request"
    (imdb_id ++ ":" ++ repr_ints season_episode) = Ok fresh ->
  get_media_info env imdb_id type = Ok (Some info) ->
  release_year info = Ok year ->
  jackett_search_indexers env
    (build_query type imdb_id info year season_episode)
    (usable_indexers env type indexers) = Ok torrents ->
  DebridService.get_stream_links debrid
    (stream_links_kwargs torrents season_episode G)
  = Ok {| yielded := []; ending := None |} ->
  fst (_search env type G debrid imdb_id season_episode indexers h)
  = Ok {| streams := []; error := None; cached := false |}
  /\ fst (search env type G debrid imdb_id season_episode indexers h)
     = if exemplar_fits imdb_id season_episode
       then Ok {| streams := []; error := None; cached := false |}
       else Raise exemplar_error.
Proof.
  intros Hadd Hinfo Hyear Hj Hg.
  assert (Hs : fst (_search env type G debrid imdb_id season_episode
                      indexers h)
               = Ok {| streams := []; error := None; cached := false |}).
  { unfold _search, bind, call, lift, ret, emit, raise.
    rewrite Hadd, Hinfo. destruct fresh; simpl;
      rewrite Hyear, Hj, Hg; reflexivity. }
  split; [exact Hs|].
  rewrite search_outcome, Hs. reflexivity.
Qed.

Lemma no_links_is_not_an_error_witness :
  fst (search (Sample.env (Some Sample.movie)) "movie" 4
         (Sample.provider (Sample.ends [])) "tt1234567" [] [] [])
  = Ok {| streams := []; error := None; cached := false |}.
Proof.
  apply (no_links_is_not_an_error (Sample.env (Some Sample.movie)) "movie" 4
           (Sample.provider (Sample.ends [])) "tt1234567" [] [] [] true
           Sample.movie 2020 ["hash1"; "hash2"]); reflexivity.
Defined.

(** ** The OffCloud provider, continued *)

Section OffCloudFacts.

Variable api : OffCloud.Api.

Lemma pick_link_find (season episode : Z) (links : list string) :
  OffCloud.pick_link api links season episode
  = find (wanted api season episode) links.
Proof.
  induction links as [|link links IH]; simpl; [reflexivity|].
  unfold wanted at 1.
  destruct (OffCloud.is_video api link); simpl; [|exact IH].
  destruct (negb (OffCloud.truthy season) && negb (OffCloud.truthy episode));
    [reflexivity|].
  destruct (OffCloud.truthy season && OffCloud.truthy episode); [|exact IH].
  destruct (OffCloud.mem season _ && OffCloud.mem episode _);
    [reflexivity | exact IH].
Qed.

End OffCloudFacts.

(** X15. For a torrent stored as a folder, [create_download_link]
    returns the first link of the folder listing, in listing order,
    that is a video and, when a season and an episode are asked for,
    whose file name parses to that season and episode; it returns
    nothing when the listing is missing or empty, and the fault of the
    listing when that fails. *)
Theorem folder_link_is_first_wanted (api : OffCloud.Api)
    (request_id : string) (info : OffCloud.TorrentInfo)
    (season episode : Z) :
  OffCloud.is_directory info = true ->
  OffCloud.create_download_link api request_id info season episode
  = match OffCloud.explore_folder_links api request_id with
    | Raise e => Raise e
    | Ok None => Ok None
    | Ok (Some response) => Ok (find (wanted api season episode) response)
    end.
Proof.
  intros Hdir. unfold OffCloud.create_download_link. rewrite Hdir. simpl.
  destruct (OffCloud.explore_folder_links api request_id)
    as [[[|link links]|]|e]; try reflexivity.
  now rewrite pick_link_find.
Qed.

Lemma folder_link_is_first_wanted_witness :
  let api :=
    {| OffCloud.make_magnet_link := fun h => h;
       OffCloud.add_magent_link := fun _ => Ok None;
       OffCloud.get_torrent_info := fun _ => Ok None;
       OffCloud.get_torrent_instant_availability := fun l => Ok (Some l);
       OffCloud.explore_folder_links := fun _ =>
         Ok (Some ["https://s/d/readme.txt"; "https://s/d/a.mkv";
                   "https://s/d/b.mkv"]);
       OffCloud.is_video := fun l => Sample.mentions ".mkv" l;
       OffCloud.TorrentMeta_parse_title := fun _ =>
         {| OffCloud.season := []; OffCloud.episode := [] |} |} in
  let info := {| OffCloud.is_directory := true;
                 OffCloud.server := "fr-4";
                 OffCloud.file_name := "d" |} in
  OffCloud.create_download_link api "r1" info 0 0
  = Ok (Some "https://s/d/a.mkv").
Proof.
  intros api info.
  apply (folder_link_is_first_wanted api "r1" info 0 0). reflexivity.
Defined.

(** X16. Asked for a season without an episode, or for an episode
    without a season, [create_download_link] never finds a link in a
    folder, whatever the folder holds. *)
Theorem half_episode_request_finds_nothing (api : OffCloud.Api)
    (request_id : string) (info : OffCloud.TorrentInfo)
    (season episode : Z) :
  OffCloud.is_directory info = true ->
  xorb (OffCloud.truthy season) (OffCloud.truthy episode) = true ->
  match
    OffCloud.create_download_link api request_id info season episode
  with
  | Ok (Some _) => False
  | Ok None => True
  | Raise e => OffCloud.explore_folder_links api request_id = Raise e
  end.
Proof.
  intros Hdir Hx. unfold OffCloud.create_download_link.
  rewrite Hdir. simpl.
  destruct (OffCloud.explore_folder_links api request_id)
    as [[[|link links]|]|e]; try exact I; [|reflexivity].
  rewrite pick_link_find. set (response := link :: links).
  assert (Hnone : find (wanted api season episode) response = None).
  { clearbody response.
    induction response as [|l response IH]; simpl; [reflexivity|].
    replace (wanted api season episode l) with false; [exact IH|].
    unfold wanted.
    destruct (OffCloud.truthy season), (OffCloud.truthy episode);
      try discriminate Hx; simpl; now rewrite andb_false_r. }
  now rewrite Hnone.
Qed.

Lemma half_episode_request_finds_nothing_witness :
  match
    OffCloud.create_download_link
      {| OffCloud.make_magnet_link := fun h => h;
         OffCloud.add_magent_link := fun _ => Ok None;
         OffCloud.get_torrent_info := fun _ => Ok None;
         OffCloud.get_torrent_instant_availability := fun l => Ok (Some l);
         OffCloud.explore_folder_links := fun _ =>
           Ok (Some ["https://s/d/Show.S01E02.mkv"]);
         OffCloud.is_video := fun _ => true;
         OffCloud.TorrentMeta_parse_title := fun _ =>
           {| OffCloud.season := [1]; OffCloud.episode := [2] |} |}
      "r1"
      {| OffCloud.is_directory := true; OffCloud.server := "fr-4";
         OffCloud.file_name := "d" |}
      1 0
  with
  | Ok (Some _) => False
  | Ok None => True
  | Raise e => False
  end.
Proof.
  pose proof (half_episode_request_finds_nothing
    {| OffCloud.make_magnet_link := fun h => h;
       OffCloud.add_magent_link := fun _ => Ok None;
       OffCloud.get_torrent_info := fun _ => Ok None;
       OffCloud.get_torrent_instant_availability := fun l => Ok (Some l);
       OffCloud.explore_folder_links := fun _ =>
         Ok (Some ["https://s/d/Show.S01E02.mkv"]);
       OffCloud.is_video := fun _ => true;
       OffCloud.TorrentMeta_parse_title := fun _ =>
         {| OffCloud.season := [1]; OffCloud.episode := [2] |} |}
    "r1"
    {| OffCloud.is_directory := true; OffCloud.server := "fr-4";
       OffCloud.file_name := "d" |}
    1 0 eq_refl eq_refl) as H.
  exact H.
Defined.

(** X17. [get_stream_link] returns a link only for a magnet whose
    status is "downloaded" and whose torrent information is available;
    the link carries the file name of that information and the
    non-empty URL [create_download_link] gave. *)
Theorem stream_link_provenance (api : OffCloud.Api) (info_hash : string)
    (season episode : Z) (link : StreamLink) :
  OffCloud.get_stream_link api info_hash season episode = Ok (Some link) ->
  exists magnet_resp torrent_info,
    OffCloud.add_magent_link api (OffCloud.make_magnet_link api info_hash)
    = Ok (Some magnet_resp) /\
    OffCloud.status magnet_resp = "downloaded" /\
    OffCloud.get_torrent_info api (OffCloud.request_id magnet_resp)
    = Ok (Some torrent_info) /\
    OffCloud.create_download_link api (OffCloud.request_id magnet_resp)
      torrent_info season episode = Ok (Some (url link)) /\
    url link <> "" /\
    name link = OffCloud.file_name torrent_info.
Proof.
  unfold OffCloud.get_stream_link.
  destruct (OffCloud.add_magent_link api _) as [[m|]|e] eqn:Em;
    try discriminate.
  destruct (String.eqb_spec (OffCloud.status m) "downloaded") as [Hs|Hs];
    simpl; try discriminate.
  destruct (OffCloud.get_torrent_info api _) as [[info|]|e] eqn:Ei;
    try discriminate.
  destruct (OffCloud.create_download_link api _ info season episode)
    as [[[|c u]|]|e] eqn:Ec; try discriminate.
  intros [= <-]. exists m, info. simpl. repeat split; try assumption.
  discriminate.
Qed.

Lemma stream_link_provenance_witness :
  exists magnet_resp torrent_info,
    OffCloud.add_magent_link Sample.api
      (OffCloud.make_magnet_link Sample.api "abcdef")
    = Ok (Some magnet_resp) /\
    OffCloud.status magnet_resp = "downloaded" /\
    OffCloud.get_torrent_info Sample.api (OffCloud.request_id magnet_resp)
    = Ok (Some torrent_info) /\
    OffCloud.create_download_link Sample.api
      (OffCloud.request_id magnet_resp) torrent_info 0 0
    = Ok (Some ("https://fr-4.offcloud.com/cloud/download/r1/"
                ++ "Movie.2020.1080p.x264-GRP.mkv")%string) /\
    ("https://fr-4.offcloud.com/cloud/download/r1/"
     ++ "Movie.2020.1080p.x264-GRP.mkv")%string <> "" /\
    "Movie.2020.1080p.x264-GRP.mkv"
    = OffCloud.file_name torrent_info.
Proof.
  apply (stream_link_provenance Sample.api "abcdef" 0 0
           {| url := ("https://fr-4.offcloud.com/cloud/download/r1/"
                      ++ "Movie.2020.1080p.x264-GRP.mkv")%string;
              name := "Movie.2020.1080p.x264-GRP.mkv";
              size := 0 |}).
  reflexivity.
Defined.

(** X18. A magnet that is downloaded as a single file always gets its
    link: the URL is built from the server, the request and the file
    name, and the folder listing is never consulted. *)
Theorem single_file_always_links (api : OffCloud.Api) (info_hash : string)
    (season episode : Z) (magnet_resp : OffCloud.AddMagnetResponse)
    (torrent_info : OffCloud.TorrentInfo) :
  OffCloud.add_magent_link api (OffCloud.make_magnet_link api info_hash)
  = Ok (Some magnet_resp) ->
  OffCloud.status magnet_resp = "downloaded" ->
  OffCloud.get_torrent_info api (OffCloud.request_id magnet_resp)
  = Ok (Some torrent_info) ->
  OffCloud.is_directory torrent_info = false ->
  OffCloud.get_stream_link api info_hash season episode
  = Ok (Some {| url := ("https://" ++ OffCloud.server torrent_info
                        ++ ".offcloud.com/cloud/download/"
                        ++ OffCloud.request_id magnet_resp
                        ++ "/" ++ OffCloud.file_name torrent_info)%string;
                name := OffCloud.file_name torrent_info;
                size := 0 |}).
Proof.
  intros Hm Hs Hi Hd. unfold OffCloud.get_stream_link.
  rewrite Hm, Hs, Hi. unfold OffCloud.create_download_link. rewrite Hd.
  reflexivity.
Qed.

Lemma single_file_always_links_witness :
  OffCloud.get_stream_link Sample.api "abcdef" 1 2
  = Ok (Some {| url := ("https://" ++ "fr-4"
                        ++ ".offcloud.com/cloud/download/"
                        ++ "r1"
                        ++ "/" ++ "Movie.2020.1080p.x264-GRP.mkv")%string;
                name := "Movie.2020.1080p.x264-GRP.mkv";
                size := 0 |}).
Proof.
  apply (single_file_always_links Sample.api "abcdef" 1 2
           {| OffCloud.request_id := "r1"; OffCloud.status := "downloaded" |}
           {| OffCloud.is_directory := false; OffCloud.server := "fr-4";
              OffCloud.file_name := "Movie.2020.1080p.x264-GRP.mkv" |});
    reflexivity.
Defined.

(** ** OffCloud's generator (offcloud_api.py, lines 171-196) *)

Section GeneratorFacts.

Variable api : OffCloud.Api.
Variable stop : bool.
Variables G season episode : Z.

Local Abbreviation run :=
  (fun items i => OffCloud.stream_loop api items i stop G season episode).

Lemma loop_yield_bound (items : list string) :
  forall i, Z.of_nat (length (yielded (run items i))) <= Z.max 1 (G - i).
Proof.
  induction items as [|t items IH]; intros i; simpl; [lia|].
  destruct t as [|c t]; [apply IH|].
  destruct (OffCloud.get_stream_link api (String c t) season episode)
    as [[link|]|e]; simpl; [| |lia].
  - destruct (i + 1 >=? G) eqn:Ei; simpl; [lia|].
    destruct stop; simpl; [lia|].
    rewrite Z.geb_leb in Ei. apply Z.leb_gt in Ei.
    specialize (IH (i + 1)). simpl in IH. lia.
  - destruct stop; simpl; [lia | apply IH].
Qed.

Lemma loop_stopped (items : list string) :
  stop = true ->
  forall i, (length (yielded (run items i)) <= 1)%nat.
Proof.
  intros Hs. induction items as [|t items IH]; intros i; simpl; [lia|].
  destruct t as [|c t]; [apply IH|].
  destruct (OffCloud.get_stream_link api (String c t) season episode)
    as [[link|]|e]; simpl; [| |lia].
  - rewrite Hs, orb_true_r. simpl. lia.
  - rewrite Hs. simpl. lia.
Qed.

Lemma loop_prefix (items : list string) :
  forall i,
    yielded (run items i)
    = firstn (length (yielded (run items i)))
        (resolved api season episode items).
Proof.
  induction items as [|t items IH]; intros i; simpl; [reflexivity|].
  destruct t as [|c t]; [apply IH|].
  destruct (OffCloud.get_stream_link api (String c t) season episode)
    as [[link|]|e]; simpl; [| |reflexivity].
  - destruct ((i + 1 >=? G) || stop); simpl; [reflexivity|].
    f_equal. apply IH.
  - destruct stop; simpl; [reflexivity | apply IH].
Qed.

Lemma loop_fault (items : list string) (e : exc) :
  forall i,
    ending (run items i) = Some e ->
    exists t, In t items /\ t <> ""%string /\
              OffCloud.get_stream_link api t season episode = Raise e.
Proof.
  induction items as [|t items IH]; intros i; simpl; [discriminate|].
  destruct t as [|c t].
  - intros H. destruct (IH _ H) as (t' & Hin & Hne & Ht').
    exists t'. now split; [right|].
  - destruct (OffCloud.get_stream_link api (String c t) season episode)
      as [[link|]|e'] eqn:Eg; simpl.
    + destruct ((i + 1 >=? G) || stop); simpl; [discriminate|].
      intros H. destruct (IH _ H) as (t' & Hin & Hne & Ht').
      exists t'. now split; [right|].
    + destruct stop; simpl; [discriminate|].
      intros H. destruct (IH _ H) as (t' & Hin & Hne & Ht').
      exists t'. now split; [right|].
    + intros [= <-]. exists (String c t).
      split; [now left|]. split; [discriminate | exact Eg].
Qed.

End GeneratorFacts.

Lemma loop_complete (api : OffCloud.Api) (G season episode : Z)
    (items : list string) :
  forall i,
    i + Z.of_nat (length (resolved api season episode items)) < G ->
    yielded (OffCloud.stream_loop api items i false G season episode)
    = resolved api season episode items.
Proof.
  induction items as [|t items IH]; intros i; simpl; [reflexivity|].
  destruct t as [|c t]; [apply IH|].
  destruct (OffCloud.get_stream_link api (String c t) season episode)
    as [[link|]|e]; simpl; [| |reflexivity].
  - intros Hlt. rewrite orb_false_r.
    destruct (i + 1 >=? G) eqn:Ei; [rewrite Z.geb_le in Ei; lia|].
    simpl. f_equal. apply IH. lia.
  - apply IH.
Qed.

Lemma generator_unfold (api : OffCloud.Api) (torrents : list string)
    (stop : bool) (G season episode : Z) :
  (exists e, OffCloud.get_torrent_instant_availability api torrents = Raise e
             /\ OffCloud.get_stream_links api torrents stop G season episode
                = {| yielded := []; ending := Some e |})
  \/ ((forall e, OffCloud.get_torrent_instant_availability api torrents
                 <> Raise e)
      /\ OffCloud.get_stream_links api torrents stop G season episode
         = OffCloud.stream_loop api (cached_items api torrents) 0 stop G
             season episode).
Proof.
  unfold OffCloud.get_stream_links, cached_items.
  destruct (OffCloud.get_torrent_instant_availability api torrents)
    as [[[|t items]|]|e].
  - right. split; [discriminate | reflexivity].
  - right. split; [discriminate | reflexivity].
  - right. split; [discriminate | reflexivity].
  - left. exists e. now split.
Qed.

(** X19. OffCloud's generator limits itself: it never yields more than
    [max_results] links, except that it yields one link even when
    [max_results] is zero or less, because the limit is tested only
    after a link has been yielded. *)
Theorem generator_yield_bound (api : OffCloud.Api) (torrents : list string)
    (stop : bool) (G season episode : Z) :
  Z.of_nat (length (yielded
    (OffCloud.get_stream_links api torrents stop G season episode)))
  <= Z.max 1 G.
Proof.
  destruct (generator_unfold api torrents stop G season episode)
    as [(e & _ & ->) | [_ ->]]; simpl; [lia|].
  pose proof (loop_yield_bound api stop G season episode
                (cached_items api torrents) 0) as H.
  simpl in H. lia.
Qed.

(** X20. The generator looks at the stop event only after it has tried
    a cached item: started with the event already set, it still
    resolves the first cached item and may yield its link, and then
    stops; it never yields a second link. *)
Theorem generator_stopped_yields_at_most_one (api : OffCloud.Api)
    (torrents : list string) (G season episode : Z) :
  (length (yielded
     (OffCloud.get_stream_links api torrents true G season episode))
   <= 1)%nat
  /\ forall t rest link,
       cached_items api torrents = t :: rest -> t <> ""%string ->
       OffCloud.get_stream_link api t season episode = Ok (Some link) ->
       yielded (OffCloud.get_stream_links api torrents true G season episode)
       = [link].
Proof.
  split.
  - destruct (generator_unfold api torrents true G season episode)
      as [(e & _ & ->) | [_ ->]]; simpl; [lia|].
    now apply loop_stopped.
  - intros t rest link Hc Ht Hl.
    destruct (generator_unfold api torrents true G season episode)
      as [(e & He & _) | [_ ->]].
    + unfold cached_items in Hc. rewrite He in Hc. discriminate.
    + rewrite Hc. simpl. destruct t as [|c t]; [contradiction|].
      rewrite Hl, orb_true_r. reflexivity.
Qed.

(** X21. The links the generator yields are the links of the cached
    items that resolve, in the order of the cached items (empty hashes
    and items without a link are passed over): always an initial part
    of that sequence, and all of it, up to the first item whose
    resolution fails, when the event is unset and the sequence is
    shorter than [max_results]. *)
Theorem generator_yields_in_cache_order (api : OffCloud.Api)
    (torrents : list string) (stop : bool) (G season episode : Z) :
  let s := OffCloud.get_stream_links api torrents stop G season episode in
  let all := resolved api season episode (cached_items api torrents) in
  yielded s = firstn (length (yielded s)) all
  /\ (stop = false -> Z.of_nat (length all) < G -> yielded s = all).
Proof.
  intros s all. subst s all.
  destruct (generator_unfold api torrents stop G season episode)
    as [(e & He & ->) | [_ ->]].
  - unfold cached_items. rewrite He. simpl. now split.
  - split; [apply loop_prefix|].
    intros -> Hlt. apply loop_complete. lia.
Qed.

(** X22. The generator ends with a fault only when the availability
    check raised it or the resolution of one of the cached items did;
    the links yielded before the fault stay yielded. *)
Theorem generator_fault_provenance (api : OffCloud.Api)
    (torrents : list string) (stop : bool) (G season episode : Z) (e : exc) :
  ending (OffCloud.get_stream_links api torrents stop G season episode)
  = Some e ->
  OffCloud.get_torrent_instant_availability api torrents = Raise e
  \/ exists t, In t (cached_items api torrents) /\ t <> ""%string /\
               OffCloud.get_stream_link api t season episode = Raise e.
Proof.
  destruct (generator_unfold api torrents stop G season episode)
    as [(e' & He & ->) | [_ ->]]; simpl.
  - intros [= <-]. now left.
  - intros H. right. eapply loop_fault. exact H.
Qed.

Lemma generator_fault_provenance_witness :
  let api :=
    {| OffCloud.make_magnet_link := fun h => h;
       OffCloud.add_magent_link := fun h =>
         if String.eqb h "bad" then Raise (OtherException "502")
         else Ok (Some {| OffCloud.request_id := h;
                          OffCloud.status := "downloaded" |});
       OffCloud.get_torrent_info := fun _ =>
         Ok (Some {| OffCloud.is_directory := false;
                     OffCloud.server := "fr-4";
                     OffCloud.file_name := "a.mkv" |});
       OffCloud.get_torrent_instant_availability := fun l => Ok (Some l);
       OffCloud.explore_folder_links := fun _ => Ok None;
       OffCloud.is_video := fun _ => true;
       OffCloud.TorrentMeta_parse_title := fun _ =>
         {| OffCloud.season := []; OffCloud.episode := [] |} |} in
  OffCloud.get_torrent_instant_availability api ["good"; "bad"]
  = Raise (OtherException "502")
  \/ exists t, In t (cached_items api ["good"; "bad"]) /\ t <> ""%string /\
               OffCloud.get_stream_link api t 0 0
               = Raise (OtherException "502").
Proof.
  intros api.
  apply (generator_fault_provenance api ["good"; "bad"] false 5 0 0
           (OtherException "502")).
  reflexivity.
Defined.

(** ** The cloud history (offcloud_api.py, lines 82-90) *)

Lemma prefix_app (n h : string) :
  String.prefix n h = true <-> exists b, h = (n ++ b)%string.
Proof.
  revert h. induction n as [|c n IH]; intros h.
  - split; [intros _; now exists h | intros _; now destruct h].
  - destruct h as [|d h]; simpl.
    + split; [discriminate | intros [b Hb]; discriminate].
    + destruct (Ascii.ascii_dec c d) as [->|Hne].
      * rewrite IH. split; intros [b Hb]; exists b; congruence.
      * split; [discriminate | intros [b Hb]; congruence].
Qed.

Lemma contains_unfold (n h : string) :
  OffCloudHistory.contains n h
  = if String.prefix n h then true
    else match h with
         | EmptyString => false
         | String _ rest => OffCloudHistory.contains n rest
         end.
Proof. destruct h; reflexivity. Qed.

(** [contains] is the substring test. *)
Lemma contains_spec (n h : string) :
  OffCloudHistory.contains n h = true
  <-> exists a b, h = (a ++ n ++ b)%string.
Proof.
  induction h as [|d h IH]; rewrite contains_unfold.
  - destruct (String.prefix n "") eqn:E.
    + apply prefix_app in E. destruct E as [b Hb].
      split; [intros _; now exists ""%string, b | reflexivity].
    + split; [discriminate|]. intros (a & b & Hab).
      destruct a; [|discriminate]. simpl in Hab.
      assert (String.prefix n "" = true) by (apply prefix_app; now exists b).
      congruence.
  - destruct (String.prefix n (String d h)) eqn:E.
    + apply prefix_app in E. destruct E as [b Hb].
      split; [intros _; now exists ""%string, b | reflexivity].
    + rewrite IH. split.
      * intros (a & b & ->). now exists (String d a), b.
      * intros (a & b & Hab). destruct a as [|x a]; simpl in Hab.
        -- assert (String.prefix n (String d h) = true)
             by (apply prefix_app; now exists b).
           congruence.
        -- injection Hab as _ ->. now exists a, b.
Qed.

(** X23. [get_available_torrent] returns the first item of the cloud
    history, in history order, that has a non-empty original link
    which, case-folded, contains the case-folded hash; nothing when
    the history is missing or empty or holds no such item; and the
    fault of the history request when that fails. *)
Theorem history_lookup_finds_first_match (Item : Type)
    (original_link : Item -> option string) (casefold : string -> string)
    (get_user_torrent_list : result (option (list Item)))
    (info_hash : string) :
  let found :=
    OffCloudHistory.get_available_torrent Item original_link casefold
      get_user_torrent_list info_hash in
  found
  = match get_user_torrent_list with
    | Raise e => Raise e
    | Ok None => Ok None
    | Ok (Some torrents) =>
        Ok (find (OffCloudHistory.matches Item original_link casefold
                    (casefold info_hash)) torrents)
    end
  /\ forall torrent,
       found = Ok (Some torrent) ->
       exists torrents link pre post,
         get_user_torrent_list = Ok (Some torrents) /\
         In torrent torrents /\
         original_link torrent = Some link /\ link <> ""%string /\
         casefold link = (pre ++ casefold info_hash ++ post)%string.
Proof.
  intros found.
  assert (Hscan : forall h l,
    OffCloudHistory.scan Item original_link casefold h l
    = find (OffCloudHistory.matches Item original_link casefold h) l).
  { intros h l. induction l as [|t l IH]; simpl; [reflexivity|].
    now rewrite IH. }
  assert (Hfound : found
    = match get_user_torrent_list with
      | Raise e => Raise e
      | Ok None => Ok None
      | Ok (Some torrents) =>
          Ok (find (OffCloudHistory.matches Item original_link casefold
                      (casefold info_hash)) torrents)
      end).
  { subst found. unfold OffCloudHistory.get_available_torrent.
    destruct get_user_torrent_list as [[[|t l]|]|e]; try reflexivity.
    now rewrite Hscan. }
  split; [exact Hfound|].
  intros torrent Ht. rewrite Hfound in Ht.
  destruct get_user_torrent_list as [[torrents|]|e]; try discriminate.
  injection Ht as Ht. apply find_some in Ht. destruct Ht as [Hin Hm].
  unfold OffCloudHistory.matches in Hm.
  destruct (original_link torrent) as [[|c link]|] eqn:El;
    try discriminate.
  apply contains_spec in Hm. destruct Hm as (pre & post & Hc).
  exists torrents, (String c link), pre, post.
  repeat split; try assumption; try reflexivity. discriminate.
Qed.
